(** * Pizzatron: persistence store, AI gateway and request layer

    A shallow embedding of [src/db.py], [src/ai.py] and [src/app.py].

    Conventions of the embedding.
    - A Python [int] is a [Z]; a [str] is a [string] whose characters are
      code points below 256; [bytes] is a list of bytes.
    - A table is the list of its rows in insertion order.  The engine is
      SQLite opened with [create_engine('sqlite:///...')] and nothing
      else: the [ForeignKey] columns are declarations (SQLite checks them
      only under [PRAGMA foreign_keys=ON], which the code never issues)
      and so are the lengths of the [String] columns.
    - SQLite integers have 64 bits.  An [int] outside that range cannot
      be bound to a statement: the query that takes it, or the [commit]
      that sends the row holding it, raises [OverflowError].  An
      [Integer] primary key is filled with [max + 1] as long as that
      fits ([has_room]); beyond that SQLite draws keys at random, which
      is outside the model.
    - The [created_at] columns and the console output of [print] are left
      out: no function reads them back.
    - A session holds the committed store, the working copy that [add]
      writes to, and the error its next flush will meet.  [commit]
      publishes the working copy or raises that error, [rollback] drops
      the working copy; exceptions leave the committed store as it is.
    - SQLite reals are IEEE 754 doubles; a double is carried as the
      rational number it is.
    - What SQL leaves to the engine (the order of rows with equal sort
      keys, the row kept for a scalar relationship joined to several
      rows, the double that [avg()] returns once the sum of a group
      leaves the integers a double holds exactly) is a field of the
      class [Sqlite].
    - What lives outside the repository (the file system, PIL, the OpenAI
      client, [json], [base64], [uuid], [pathlib]) is a field of the
      class [Externals]. *)

From Stdlib Require Import ZArith QArith String Ascii List Lia Bool.
From Stdlib Require Import DecimalString Sorted Permutation.
From Stdlib Require Import Floats.SpecFloat.
Import ListNotations.

Open Scope string_scope.
Open Scope Z_scope.
Open Scope list_scope.

Notation "s1 +++ s2" := (String.append s1 s2)
  (at level 60, right associativity).

(** ** Python values *)

Module Py.

Definition bytes := list Byte.byte.

(** The exceptions the modelled code can meet. *)
Inductive exn : Type :=
| KeyError (key : string)
| FileNotFoundError (path : string)
| OverflowError (msg : string)
| InvalidRequestError (msg : string)
| ExternalError (msg : string).

(** [str(n)] as used inside f-strings. *)
Definition str_of_int (n : Z) : string :=
  NilZero.string_of_int (Z.to_int n).

(** [str.isspace] for one character (code points below 256). *)
Definition isspace (c : ascii) : bool :=
  let n := Z.of_nat (nat_of_ascii c) in
  ((9 <=? n) && (n <=? 13)) || ((28 <=? n) && (n <=? 32))
  || (n =? 133) || (n =? 160).

Fixpoint lstrip_with (p : ascii -> bool) (s : string) : string :=
  match s with
  | EmptyString => EmptyString
  | String c rest => if p c then lstrip_with p rest else s
  end.

Fixpoint rev_string (s acc : string) : string :=
  match s with
  | EmptyString => acc
  | String c rest => rev_string rest (String c acc)
  end.

Definition rstrip_with (p : ascii -> bool) (s : string) : string :=
  rev_string (lstrip_with p (rev_string s EmptyString)) EmptyString.

(** [s.strip()] *)
Definition strip (s : string) : string :=
  rstrip_with isspace (lstrip_with isspace s).

(** [s.lstrip("/")] *)
Definition lstrip_slash (s : string) : string :=
  lstrip_with (fun c => Ascii.eqb c "/"%char) s.

(** [os.path.join("src", p)] on POSIX. *)
Definition path_join_src (p : string) : string :=
  match p with
  | String "/"%char _ => p
  | _ => "src/" +++ p
  end.

(** The file a path names: the operating system reads a run of slashes
    as one. *)
Fixpoint collapse_slashes (s : string) : string :=
  match s with
  | EmptyString => EmptyString
  | String c rest =>
      match rest with
      | String c' _ =>
          if Ascii.eqb c "/"%char && Ascii.eqb c' "/"%char
          then collapse_slashes rest
          else String c (collapse_slashes rest)
      | EmptyString => String c EmptyString
      end
  end.

(** A [dict] with [str] keys: the items in insertion order.  [dict_set]
    is [d[k] = v]: it overwrites in place or appends. *)
Definition dict (V : Type) := list (string * V).

Fixpoint dict_get {V} (k : string) (d : dict V) : option V :=
  match d with
  | [] => None
  | (k', v) :: rest => if String.eqb k k' then Some v else dict_get k rest
  end.

Definition dict_mem {V} (k : string) (d : dict V) : bool :=
  match dict_get k d with Some _ => true | None => false end.

Fixpoint dict_set {V} (k : string) (v : V) (d : dict V) : dict V :=
  match d with
  | [] => [(k, v)]
  | (k', v') :: rest =>
      if String.eqb k k' then (k, v) :: rest else (k', v') :: dict_set k v rest
  end.

(** [{key(x): val(x) for x in xs}] *)
Definition dict_comp {A V} (key : A -> string) (val : A -> V) (xs : list A)
  : dict V :=
  fold_left (fun d x => dict_set (key x) (val x) d) xs [].

Definition keys {V} (d : dict V) : list string := map fst d.

(** [range(n)] *)
Definition range (n : nat) : list Z := map Z.of_nat (seq 0 n).

End Py.
Export Py.

(** ** SQLite numbers *)

Definition int64 (z : Z) : bool := (- 2 ^ 63 <=? z) && (z <? 2 ^ 63).

(** What [sqlite3] raises when asked to bind any other [int]. *)
Definition int_too_large : exn :=
  OverflowError "Python int too large to convert to SQLite INTEGER".

(** [(double)z], rounded to nearest, ties to even. *)
Definition double_of_int (z : Z) : spec_float :=
  binary_normalize 53 1024 z 0 false.

(** The rational number a finite double is, in lowest terms. *)
Definition Q_of_double (x : spec_float) : Q :=
  match x with
  | S754_finite sign m e =>
      let v := if sign then Z.neg m else Z.pos m in
      if 0 <=? e then inject_Z (v * 2 ^ e)
      else Qred (Qmake v (Pos.pow 2 (Z.to_pos (- e))))
  | _ => 0%Q
  end.

(** The quotient of two integers that doubles hold exactly, as the
    division of doubles gives it. *)
Definition double_div (a b : Z) : Q :=
  Q_of_double (SFdiv 53 1024 (double_of_int a) (double_of_int b)).

(** ** Schema ([src/db.py], the declarative classes) *)

Module Chef.
Record t := { id : Z; name : string; image_path : option string }.
End Chef.

Module Pizza.
Record t := { id : Z; chef_id : Z }.
End Pizza.

Module PizzaImage.
Record t := { id : Z; pizza_id : Z; image_path : string }.
End PizzaImage.

Module ReviewCategory.
Record t := { id : Z; name : string }.
End ReviewCategory.

Module PizzaReview.
Record t := { id : Z; pizza_id : Z; review_summary : string }.
End PizzaReview.

Module PizzaReviewScore.
Record t := { id : Z; pizza_review_id : Z; category_id : Z; score : Z }.
End PizzaReviewScore.

(** The six tables, named by their [__tablename__]. *)
Record Store := {
  chefs : list Chef.t;
  pizzas : list Pizza.t;
  pizza_images : list PizzaImage.t;
  review_categories : list ReviewCategory.t;
  pizza_review : list PizzaReview.t;
  pizza_review_scores : list PizzaReviewScore.t
}.

Definition empty_store : Store :=
  {| chefs := []; pizzas := []; pizza_images := [];
     review_categories := []; pizza_review := [];
     pizza_review_scores := [] |}.

(** A store with one table replaced. *)
Definition set_chefs (db : Store) (rows : list Chef.t) : Store :=
  {| chefs := rows;
     pizzas := pizzas db;
     pizza_images := pizza_images db;
     review_categories := review_categories db;
     pizza_review := pizza_review db;
     pizza_review_scores := pizza_review_scores db |}.

Definition set_pizzas (db : Store) (rows : list Pizza.t) : Store :=
  {| chefs := chefs db;
     pizzas := rows;
     pizza_images := pizza_images db;
     review_categories := review_categories db;
     pizza_review := pizza_review db;
     pizza_review_scores := pizza_review_scores db |}.

Definition set_pizza_images (db : Store) (rows : list PizzaImage.t) : Store :=
  {| chefs := chefs db;
     pizzas := pizzas db;
     pizza_images := rows;
     review_categories := review_categories db;
     pizza_review := pizza_review db;
     pizza_review_scores := pizza_review_scores db |}.

Definition set_review_categories (db : Store)
  (rows : list ReviewCategory.t) : Store :=
  {| chefs := chefs db;
     pizzas := pizzas db;
     pizza_images := pizza_images db;
     review_categories := rows;
     pizza_review := pizza_review db;
     pizza_review_scores := pizza_review_scores db |}.

Definition set_pizza_review (db : Store) (rows : list PizzaReview.t) : Store :=
  {| chefs := chefs db;
     pizzas := pizzas db;
     pizza_images := pizza_images db;
     review_categories := review_categories db;
     pizza_review := rows;
     pizza_review_scores := pizza_review_scores db |}.

Definition set_pizza_review_scores (db : Store)
  (rows : list PizzaReviewScore.t) : Store :=
  {| chefs := chefs db;
     pizzas := pizzas db;
     pizza_images := pizza_images db;
     review_categories := review_categories db;
     pizza_review := pizza_review db;
     pizza_review_scores := rows |}.

(** The key SQLite gives to a row inserted without one: 1 in an empty
    table, otherwise one more than the largest key in use. *)
Definition next_id (ids : list Z) : Z :=
  match ids with
  | [] => 1
  | i :: rest => fold_left Z.max rest i + 1
  end.

(** The table has not used the largest key: the next one fits. *)
Definition has_room (ids : list Z) : bool := next_id ids <? 2 ^ 63.

(** ** Effects: a state threaded through code that may raise *)

Module Eff.

Section WithState.
Context {S : Type}.

Definition M (A : Type) : Type := S -> (exn + A) * S.

Definition ret {A} (a : A) : M A := fun s => (inr a, s).

Definition bind {A B} (m : M A) (f : A -> M B) : M B :=
  fun s =>
    match m s with
    | (inl e, s') => (inl e, s')
    | (inr a, s') => f a s'
    end.

Definition raise {A} (e : exn) : M A := fun s => (inl e, s).

(** [try: body / except Exception as e: handler e] *)
Definition try_except {A} (body : M A) (handler : exn -> M A) : M A :=
  fun s =>
    match body s with
    | (inl e, s') => handler e s'
    | (inr a, s') => (inr a, s')
    end.

Definition modify (f : S -> S) : M unit := fun s => (inr tt, f s).

(** A library call that either returns or raises. *)
Definition lift_result {A} (r : exn + A) : M A := fun s => (r, s).

End WithState.

Arguments M : clear implicits.

End Eff.

Declare Scope eff_scope.
Delimit Scope eff_scope with eff.
Notation "x <- c1 ;; c2" := (Eff.bind c1 (fun x => c2))
  (at level 100, c1 at next level, right associativity) : eff_scope.
Notation "c1 ;; c2" := (Eff.bind c1 (fun _ => c2))
  (at level 100, right associativity) : eff_scope.
Open Scope eff_scope.

(** ** Sessions *)

Module Session.

Record t := {
  committed : Store;
  working : Store;
  flush_error : option exn
}.

Definition M (A : Type) : Type := Eff.M t A.

Definition ret {A} (a : A) : M A := Eff.ret a.
Definition raise {A} (e : exn) : M A := Eff.raise e.
Definition try_except {A} (body : M A) (handler : exn -> M A) : M A :=
  Eff.try_except body handler.

(** [session.commit()]: the pending rows are sent; when one of them
    cannot be bound the commit raises and publishes nothing. *)
Definition commit : M unit :=
  fun s =>
    match flush_error s with
    | Some e => (inl e, s)
    | None =>
        (inr tt, {| committed := working s; working := working s;
                    flush_error := None |})
    end.

Definition rollback : M unit :=
  Eff.modify (fun s => {| committed := committed s;
                          working := committed s;
                          flush_error := None |}).

Definition query {A} (table : Store -> list A) : M (list A) :=
  fun s => (inr (table (working s)), s).

Definition update (f : Store -> Store) : M unit :=
  Eff.modify
    (fun s => {| committed := committed s; working := f (working s);
                 flush_error := flush_error s |}).

(** A row that holds the integers [params], given by the caller, is
    added: it joins the working copy when they all fit, and otherwise
    makes the next commit raise. *)
Definition stage (params : list Z) (f : Store -> Store) : M unit :=
  if forallb int64 params then update f
  else
    Eff.modify
      (fun s => {| committed := committed s; working := working s;
                   flush_error :=
                     match flush_error s with
                     | Some e => Some e
                     | None => Some int_too_large
                     end |}).

(** [session = db_manager.get_session()] ... [finally: session.close()]:
    the body runs on a fresh session over the store, and what is left
    when the session closes is what was committed. *)
Definition run {A} (body : M A) (db : Store) : (exn + A) * Store :=
  let (r, s) := body {| committed := db; working := db;
                        flush_error := None |} in
  (r, committed s).

End Session.

(** [session.add(obj)] for a new object of each class.  The row gets its
    key here; the session's rows reach the store at [commit].  The
    integers checked are those the caller supplies; keys read back from
    the database fit. *)
Definition add_Chef (name : string) (image_path : option string)
  : Session.M Chef.t :=
  rows <- Session.query chefs ;;
  let obj := {| Chef.id := next_id (map Chef.id rows);
                Chef.name := name; Chef.image_path := image_path |} in
  Session.update (fun db => set_chefs db (chefs db ++ [obj])) ;;
  Session.ret obj.

Definition add_Pizza (chef_id : Z) : Session.M Pizza.t :=
  rows <- Session.query pizzas ;;
  let obj := {| Pizza.id := next_id (map Pizza.id rows);
                Pizza.chef_id := chef_id |} in
  Session.stage [chef_id]
    (fun db => set_pizzas db (pizzas db ++ [obj])) ;;
  Session.ret obj.

Definition add_PizzaImage (pizza_id : Z) (image_path : string)
  : Session.M PizzaImage.t :=
  rows <- Session.query pizza_images ;;
  let obj := {| PizzaImage.id := next_id (map PizzaImage.id rows);
                PizzaImage.pizza_id := pizza_id;
                PizzaImage.image_path := image_path |} in
  Session.stage [pizza_id]
    (fun db => set_pizza_images db (pizza_images db ++ [obj])) ;;
  Session.ret obj.

Definition add_ReviewCategory (name : string)
  : Session.M ReviewCategory.t :=
  rows <- Session.query review_categories ;;
  let obj := {| ReviewCategory.id := next_id (map ReviewCategory.id rows);
                ReviewCategory.name := name |} in
  Session.update
    (fun db => set_review_categories db (review_categories db ++ [obj])) ;;
  Session.ret obj.

Definition add_PizzaReview (pizza_id : Z) (review_summary : string)
  : Session.M PizzaReview.t :=
  rows <- Session.query pizza_review ;;
  let obj := {| PizzaReview.id := next_id (map PizzaReview.id rows);
                PizzaReview.pizza_id := pizza_id;
                PizzaReview.review_summary := review_summary |} in
  Session.stage [pizza_id]
    (fun db => set_pizza_review db (pizza_review db ++ [obj])) ;;
  Session.ret obj.

Definition add_PizzaReviewScore (pizza_review_id category_id score : Z)
  : Session.M PizzaReviewScore.t :=
  rows <- Session.query pizza_review_scores ;;
  let obj := {| PizzaReviewScore.id :=
                  next_id (map PizzaReviewScore.id rows);
                PizzaReviewScore.pizza_review_id := pizza_review_id;
                PizzaReviewScore.category_id := category_id;
                PizzaReviewScore.score := score |} in
  Session.stage [score]
    (fun db =>
       set_pizza_review_scores db (pizza_review_scores db ++ [obj])) ;;
  Session.ret obj.

(** [session.refresh(obj)]: the row is read again by its key. *)
Definition refresh {A} (table : Store -> list A) (key : A -> Z) (obj : A)
  : Session.M A :=
  rows <- Session.query table ;;
  match find (fun r => key r =? key obj) rows with
  | Some r => Session.ret r
  | None => Session.raise (InvalidRequestError "Could not refresh instance")
  end.

(** ** What SQL leaves to the engine *)

Class Sqlite := {
  (** [avg(score)] over the scores of a group whose sum a double does
      not hold exactly: the double returned, which depends on the way
      the release at hand sums *)
  sql_avg : list Z -> Q;
  (** the order in which the sorter hands out pizzas whose averages are
      equal: the smaller rank first *)
  tie_rank : Z -> Z;
  (** of the review rows joined to one pizza, the position of the row
      that the scalar relationship [Pizza.review] keeps *)
  kept_row : list PizzaReview.t -> nat
}.

(** ** What the eager-loading read paths return *)

Record ScoreView := {
  sv_score : PizzaReviewScore.t;
  sv_category : option ReviewCategory.t
}.

Record ReviewView := {
  rv_review : PizzaReview.t;
  rv_scores : list ScoreView
}.

Record PizzaView := {
  pv_pizza : Pizza.t;
  pv_chef : option Chef.t;
  pv_images : list PizzaImage.t;
  pv_review : option ReviewView
}.

Record ChefView := {
  cv_chef : Chef.t;
  cv_pizzas : list (Pizza.t * list PizzaImage.t)
}.

(** [joinedload(PizzaReviewScore.category)] *)
Definition load_score (db : Store) (s : PizzaReviewScore.t) : ScoreView :=
  {| sv_score := s;
     sv_category :=
       find (fun c => ReviewCategory.id c =? PizzaReviewScore.category_id s)
            (review_categories db) |}.

(** [joinedload(PizzaReview.scores)] *)
Definition load_review (db : Store) (r : PizzaReview.t) : ReviewView :=
  {| rv_review := r;
     rv_scores :=
       map (load_score db)
           (filter (fun s => PizzaReviewScore.pizza_review_id s
                             =? PizzaReview.id r)
                   (pizza_review_scores db)) |}.

(** [joinedload(Pizza.images)] *)
Definition load_images (db : Store) (p : Pizza.t) : list PizzaImage.t :=
  filter (fun i => PizzaImage.pizza_id i =? Pizza.id p) (pizza_images db).

(** [joinedload(Pizza.chef), joinedload(Pizza.images),
    joinedload(Pizza.review)...]; [Pizza.review] is declared with
    [uselist=False]: of several joined review rows one is kept, the
    engine's row order deciding which. *)
Definition load_pizza `{Sqlite} (db : Store) (p : Pizza.t) : PizzaView :=
  let joined :=
    filter (fun r => PizzaReview.pizza_id r =? Pizza.id p)
           (pizza_review db) in
  {| pv_pizza := p;
     pv_chef := find (fun c => Chef.id c =? Pizza.chef_id p) (chefs db);
     pv_images := load_images db p;
     pv_review :=
       option_map (load_review db)
         (nth_error joined
            (Nat.modulo (kept_row joined) (length joined))) |}.

(** [joinedload(Chef.pizzas).joinedload(Pizza.images)] *)
Definition load_chef (db : Store) (c : Chef.t) : ChefView :=
  {| cv_chef := c;
     cv_pizzas :=
       map (fun p => (p, load_images db p))
           (filter (fun p => Pizza.chef_id p =? Chef.id c) (pizzas db)) |}.

(** ** [class DatabaseManager] *)

Module DatabaseManager.

Definition seed_categories : list string :=
  ["Shape"; "Crust Quality"; "Presentation"; "Bake Quality";
   "Flavor (estimated)"; "Overall"].

Fixpoint add_all_categories (names : list string) : Session.M unit :=
  match names with
  | [] => Session.ret tt
  | n :: rest => add_ReviewCategory n ;; add_all_categories rest
  end.

Definition seed_database (db : Store) : (exn + unit) * Store :=
  Session.run
    (Session.try_except
       (categories <- Session.query review_categories ;;
        if (0 <? Z.of_nat (length categories))
        then Session.ret tt
        else (add_all_categories seed_categories ;;
              Session.commit))
       (fun e => Session.rollback ;; Session.raise e))
    db.

Definition initialize_database (db : Store) : (exn + unit) * Store :=
  seed_database db.

Definition get_all_chefs (db : Store) : list ChefView :=
  map (load_chef db) (chefs db).

(** A query that binds the integer [param]. *)
Definition bound {A} (param : Z) (result : A) : exn + A :=
  if int64 param then inr result else inl int_too_large.

Definition get_chef_by_id (db : Store) (chef_id : Z)
  : exn + option Chef.t :=
  bound chef_id (find (fun c => Chef.id c =? chef_id) (chefs db)).

Definition create_chef (name : string) (image_path : option string)
  (db : Store) : (exn + Chef.t) * Store :=
  Session.run
    (Session.try_except
       (chef <- add_Chef name image_path ;;
        Session.commit ;;
        chef <- refresh chefs Chef.id chef ;;
        Session.ret chef)
       (fun e => Session.rollback ;; Session.raise e))
    db.

Definition get_all_pizzas `{Sqlite} (db : Store) : list PizzaView :=
  map (load_pizza db) (pizzas db).

Definition get_pizzas_by_chef `{Sqlite} (db : Store) (chef_id : Z)
  : exn + list PizzaView :=
  bound chef_id
    (map (load_pizza db)
         (filter (fun p => Pizza.chef_id p =? chef_id) (pizzas db))).

Definition create_pizza (chef_id : Z) (db : Store)
  : (exn + Pizza.t) * Store :=
  Session.run
    (Session.try_except
       (pizza <- add_Pizza chef_id ;;
        Session.commit ;;
        pizza <- refresh pizzas Pizza.id pizza ;;
        Session.ret pizza)
       (fun e => Session.rollback ;; Session.raise e))
    db.

Definition get_pizza_images (db : Store) (pizza_id : Z)
  : exn + list PizzaImage.t :=
  bound pizza_id
    (filter (fun i => PizzaImage.pizza_id i =? pizza_id) (pizza_images db)).

Definition add_pizza_image (pizza_id : Z) (image_path : string)
  (db : Store) : (exn + PizzaImage.t) * Store :=
  Session.run
    (Session.try_except
       (pizza_image <- add_PizzaImage pizza_id image_path ;;
        Session.commit ;;
        pizza_image <- refresh pizza_images PizzaImage.id pizza_image ;;
        Session.ret pizza_image)
       (fun e => Session.rollback ;; Session.raise e))
    db.

Definition get_chef_with_pizzas (db : Store) (chef_id : Z)
  : exn + option ChefView :=
  bound chef_id
    (option_map (load_chef db)
       (find (fun c => Chef.id c =? chef_id) (chefs db))).

Definition get_pizza_with_images `{Sqlite} (db : Store) (pizza_id : Z)
  : exn + option PizzaView :=
  bound pizza_id
    (option_map (load_pizza db)
       (find (fun p => Pizza.id p =? pizza_id) (pizzas db))).

End DatabaseManager.

(** ** The world outside the repository *)

(** What [review_pizza_images] returns: the parsed JSON object.  A field
    is [None] when the key is missing from the object. *)
Module ReviewData.
Record t := { review_summary : option string; scores : option (dict Z) }.
End ReviewData.

(** The request of [client.chat.completions.create]. *)
Record ChatRequest := {
  system_prompt : string;
  user_prompt : string;
  image_parts : list string;
  schema_required : list string
}.

Inductive event : Type :=
| ImagesEdit (image : bytes) (prompt : string)
| ChatCompletionsCreate (request : ChatRequest)
| Sleep (seconds : Z).

Definition trace := list event.

Definition is_remote_call (e : event) : bool :=
  match e with
  | ImagesEdit _ _ | ChatCompletionsCreate _ => true
  | Sleep _ => false
  end.

Definition remote_calls (tr : trace) : nat :=
  length (filter is_remote_call tr).

Class Externals := {
  (** [open(path, "r").read()]; [None] when [open] raises *)
  read_text : string -> option string;
  (** the PIL pipeline of [generate_chef_image]; [None] when it raises *)
  normalize_image : bytes -> option bytes;
  (** [template.format(chef_name=chef_name)] *)
  str_format : string -> string -> exn + string;
  b64encode : bytes -> string;
  b64decode : string -> exn + bytes;
  (** [client.images.edit(...).data[0].b64_json], by the number of
      remote calls made before this one *)
  images_edit : nat -> bytes -> string -> exn + string;
  (** [client.chat.completions.create(...).choices[0].message.content] *)
  chat_completions_create : nat -> ChatRequest -> exn + string;
  json_loads : string -> exn + ReviewData.t;
  (** [uuid.uuid4().hex[:8]], by the number of draws made before *)
  uuid4_hex8 : nat -> string;
  (** [Path(filename).suffix.lower()] *)
  suffix_lower : string -> string
}.

(** ** [src/ai.py] *)

Module Ai.

Section WithExternals.
Context `{Externals}.

Definition open_read (path : string) : Eff.M trace string :=
  match read_text path with
  | Some text => Eff.ret text
  | None => Eff.raise (FileNotFoundError path)
  end.

Definition time_sleep (seconds : Z) : Eff.M trace unit :=
  Eff.modify (fun tr => tr ++ [Sleep seconds]).

Definition client_images_edit (image : bytes) (prompt : string)
  : Eff.M trace string :=
  fun tr =>
    (images_edit (remote_calls tr) image prompt,
     tr ++ [ImagesEdit image prompt]).

Definition client_chat_completions_create (request : ChatRequest)
  : Eff.M trace string :=
  fun tr =>
    (chat_completions_create (remote_calls tr) request,
     tr ++ [ChatCompletionsCreate request]).

Definition max_retries : Z := 3.

(** The [try] block of one attempt: the remote call and the decoding of
    its answer; an exception of either is what the [except] clause gets. *)
Definition attempt_once (processed_image_bytes : bytes) (prompt : string)
  : Eff.M trace (exn + bytes) :=
  Eff.try_except
    (image_base64 <- client_images_edit processed_image_bytes prompt ;;
     image_bytes <- Eff.lift_result (b64decode image_base64) ;;
     Eff.ret (inr image_bytes))
    (fun e => Eff.ret (inl e)).

(** What the [k+1]-th remote call and the decoding of its answer come
    to: the outcome of the attempt that makes that call. *)
Definition attempt_outcome (k : nat) (processed_image_bytes : bytes)
  (prompt : string) : exn + bytes :=
  match images_edit k processed_image_bytes prompt with
  | inl e => inl e
  | inr image_base64 => b64decode image_base64
  end.

(** [for attempt in range(max_retries)], with the attempts still to run
    and the current [retry_delay].  Leaving the loop without [return]
    makes the function return [None]. *)
Fixpoint retry_loop (processed_image_bytes : bytes) (prompt : string)
  (attempts : list Z) (retry_delay : Z) : Eff.M trace (option bytes) :=
  match attempts with
  | [] => Eff.ret None
  | attempt :: rest =>
      outcome <- attempt_once processed_image_bytes prompt ;;
      match outcome with
      | inr image_bytes => Eff.ret (Some image_bytes)
      | inl e =>
          if attempt =? max_retries - 1
          then Eff.raise e
          else (time_sleep retry_delay ;;
                retry_loop processed_image_bytes prompt rest
                           (retry_delay * 2))
      end
  end.

Definition generate_chef_image (reference_image_bytes : bytes)
  : Eff.M trace (option bytes) :=
  let processed_image_bytes :=
    match normalize_image reference_image_bytes with
    | Some processed => processed
    | None => reference_image_bytes
    end in
  prompt <- open_read "src/prompts/chef_image.txt" ;;
  retry_loop processed_image_bytes prompt
             (range (Z.to_nat max_retries)) 2.

(** The loop over [pizza_image_paths]; [fs] is [open(path, "rb").read()]
    on the files as they are when the function runs. *)
Fixpoint build_image_parts (fs : string -> option bytes)
  (pizza_image_paths : list string) (image_parts : list string)
  : list string :=
  match pizza_image_paths with
  | [] => image_parts
  | image_path :: rest =>
      let local_path := path_join_src (lstrip_slash image_path) in
      match fs local_path with
      | Some content =>
          build_image_parts fs rest
            (image_parts ++ ["data:image/jpeg;base64," +++ b64encode content])
      | None => build_image_parts fs rest image_parts
      end
  end.

Definition no_images_summary : string := "No images supplied for review.".

Definition review_pizza_images (db : Store) (fs : string -> option bytes)
  (pizza_image_paths : list string) (chef_name : string)
  : Eff.M trace ReviewData.t :=
  let categories := review_categories db in
  let category_names := map ReviewCategory.name categories in
  template <- open_read "src/prompts/pizza_review_system_prompt.txt" ;;
  system_prompt <- Eff.lift_result (str_format template chef_name) ;;
  let image_parts := build_image_parts fs pizza_image_paths [] in
  match image_parts with
  | [] =>
      Eff.ret
        {| ReviewData.review_summary := Some no_images_summary;
           ReviewData.scores :=
             Some (dict_comp (fun cat_name => cat_name) (fun _ => 0)
                             category_names) |}
  | _ =>
      let score_props :=
        dict_comp (fun cat => cat) (fun _ => (1, 5)) category_names in
      let user_prompt :=
        "Here is the submission from chef " +++ chef_name +++ ". "
        +++ "Please review it and produce ONLY JSON matching the schema." in
      review <- client_chat_completions_create
                  {| system_prompt := system_prompt;
                     user_prompt := user_prompt;
                     image_parts := image_parts;
                     schema_required := keys score_props |} ;;
      Eff.lift_result (json_loads review)
  end.

End WithExternals.

End Ai.

(** ** [src/app.py] *)

Module App.

(** A task handed to [background_tasks.add_task]. *)
Inductive Task : Type :=
| process_chef_image_task
    (chef_id : Z) (image_content : bytes) (original_filename : option string)
| process_pizza_review_task
    (pizza_id : Z) (image_paths : list string) (chef_name : string).

(** The process state: the store behind [db_manager], the files under
    [src/], the tasks scheduled so far, the number of uuids drawn, and
    the remote calls and sleeps so far. *)
Record World := {
  db : Store;
  files : dict bytes;
  tasks : list Task;
  uuid_draws : nat;
  events : trace
}.

(** The files are kept under their paths with runs of slashes
    collapsed. *)
Definition fs_of (w : World) : string -> option bytes :=
  fun path => dict_get (collapse_slashes path) (files w).

Record UploadFile := { filename : option string; content : bytes }.

(** A value of a template context. *)
Inductive ctx_val : Type :=
| CStr (s : string)
| CInt (n : Z)
| CChefs (chefs : list ChefView)
| CScored (pizzas_with_scores : list (Pizza.t * Q)).

(** The context of a template response, without its ["request"] entry. *)
Inductive Response : Type :=
| TemplateResponse (template : string) (context : list (string * ctx_val))
| RedirectResponse (url : string) (status_code : Z).

Definition str_of_exn (e : exn) : string :=
  match e with
  | KeyError key => "'" +++ key +++ "'"
  | FileNotFoundError path =>
      "[Errno 2] No such file or directory: '" +++ path +++ "'"
  | OverflowError msg => msg
  | InvalidRequestError msg => msg
  | ExternalError msg => msg
  end.

Definition allowed_extensions : list string :=
  [".jpg"; ".jpeg"; ".png"; ".gif"; ".webp"].

Definition in_set (x : string) (xs : list string) : bool :=
  existsb (String.eqb x) xs.

(** [if upload.filename:] *)
Definition truthy_filename (image : UploadFile) : option string :=
  match filename image with
  | Some (String c rest) => Some (String c rest)
  | _ => None
  end.

Section WithExternals.
Context `{Externals}.

Definition db_call {A} (f : Store -> (exn + A) * Store) : Eff.M World A :=
  fun w =>
    let (r, db') := f (db w) in
    (r, {| db := db'; files := files w; tasks := tasks w;
           uuid_draws := uuid_draws w; events := events w |}).

(** A read that returns or raises, and writes nothing. *)
Definition db_read {A} (f : Store -> exn + A) : Eff.M World A :=
  fun w => (f (db w), w).

Definition uuid_hex8 : Eff.M World string :=
  fun w =>
    (inr (uuid4_hex8 (uuid_draws w)),
     {| db := db w; files := files w; tasks := tasks w;
        uuid_draws := S (uuid_draws w); events := events w |}).

Definition write_file (path : string) (data : bytes) : Eff.M World unit :=
  Eff.modify (fun w =>
    {| db := db w; files := dict_set (collapse_slashes path) data (files w);
       tasks := tasks w;
       uuid_draws := uuid_draws w; events := events w |}).

Definition add_task (t : Task) : Eff.M World unit :=
  Eff.modify (fun w =>
    {| db := db w; files := files w; tasks := tasks w ++ [t];
       uuid_draws := uuid_draws w; events := events w |}).

(** The outermost [try: ... except Exception as e: return ...] of a
    request handler. *)
Definition handle (body : Eff.M World Response)
  (on_error : exn -> World -> Response) (w : World) : Response * World :=
  match body w with
  | (inr r, w') => (r, w')
  | (inl e, w') => (on_error e w', w')
  end.

(** [POST /create-chef], after the upload has been handled;
    [original_filename] is [image.filename], read only when the task is
    scheduled. *)
Definition create_chef_finish (name : string)
  (temp_image_path : option string) (should_process_ai : bool)
  (image_content : option bytes) (original_filename : option string)
  : Eff.M World Response :=
  chef <- db_call (DatabaseManager.create_chef (strip name) temp_image_path) ;;
  match should_process_ai, image_content with
  | true, Some (b :: bs) =>
      add_task (process_chef_image_task (Chef.id chef) (b :: bs)
                                        original_filename)
  | _, _ => Eff.ret tt
  end ;;
  Eff.ret (RedirectResponse ("/chef/" +++ str_of_int (Chef.id chef)) 303).

Definition create_chef_submit (name : string) (image : option UploadFile)
  : World -> Response * World :=
  handle
    (if (String.length name =? 0)%nat
        || (String.length (strip name) =? 0)%nat
     then
       Eff.ret (TemplateResponse "create_chef.html"
                  [("title", CStr "Create New Chef");
                   ("error", CStr "Chef name is required");
                   ("name", CStr name)])
     else
       match image with
       | Some upload =>
           match truthy_filename upload with
           | Some image_filename =>
               let file_extension := suffix_lower image_filename in
               if negb (in_set file_extension allowed_extensions)
               then
                 Eff.ret (TemplateResponse "create_chef.html"
                   [("title", CStr "Create New Chef");
                    ("error", CStr
                       "Invalid image format. Please use JPG, PNG, GIF, or WebP.");
                    ("name", CStr name)])
               else
                 let image_content := content upload in
                 hex <- uuid_hex8 ;;
                 let temp_filename :=
                   "chef_temp_" +++ hex +++ file_extension in
                 write_file ("src/static/images/chefs/" +++ temp_filename)
                            image_content ;;
                 create_chef_finish name
                   (Some ("/static/images/chefs/" +++ temp_filename))
                   true (Some image_content) (filename upload)
           | None => create_chef_finish name None false None None
           end
       | None => create_chef_finish name None false None None
       end)
    (fun e _ =>
       TemplateResponse "create_chef.html"
         [("title", CStr "Create New Chef");
          ("error", CStr ("Failed to create chef: " +++ str_of_exn e));
          ("name", CStr name)]).

(** The loop that stores the uploads of a pizza; [i] is the index of
    [enumerate]. *)
Fixpoint save_pizza_images (pizza_id : Z) (i : Z) (images : list UploadFile)
  (pizza_image_paths : list string) : Eff.M World (list string) :=
  match images with
  | [] => Eff.ret pizza_image_paths
  | image :: rest =>
      match truthy_filename image with
      | Some image_filename =>
          let file_extension := suffix_lower image_filename in
          hex <- uuid_hex8 ;;
          let unique_filename :=
            "pizza_" +++ str_of_int pizza_id +++ "_" +++ str_of_int (i + 1)
            +++ "_" +++ hex +++ file_extension in
          write_file ("src/static/images/pizzas/" +++ unique_filename)
                     (content image) ;;
          let web_path := "/static/images/pizzas/" +++ unique_filename in
          db_call (DatabaseManager.add_pizza_image pizza_id web_path) ;;
          save_pizza_images pizza_id (i + 1) rest
                            (pizza_image_paths ++ [web_path])
      | None => save_pizza_images pizza_id (i + 1) rest pizza_image_paths
      end
  end.

Definition bad_extension (image : UploadFile) : bool :=
  match truthy_filename image with
  | Some image_filename =>
      negb (in_set (suffix_lower image_filename) allowed_extensions)
  | None => false
  end.

(** The submission form shown again: [chefs = db_manager.get_all_chefs()]
    and the template response built on it. *)
Definition submit_form (entries : list (string * ctx_val)) (w : World)
  : Response :=
  let chefs := DatabaseManager.get_all_chefs (db w) in
  TemplateResponse "submit_pizza.html" (("chefs", CChefs chefs) :: entries).

Definition show_form (entries : list (string * ctx_val))
  : Eff.M World Response :=
  fun w => (inr (submit_form entries w), w).

(** [POST /submit-pizza] *)
Definition submit_pizza_handler (chef_id : Z) (images : list UploadFile)
  : World -> Response * World :=
  handle
    (chef <- db_read (fun db => DatabaseManager.get_chef_by_id db chef_id) ;;
     match chef with
     | None =>
         show_form [("error", CStr "Invalid chef selected");
                      ("title", CStr "Submit Pizza for Judgment")]
     | Some chef =>
         if (Z.of_nat (length images) <? 1) || (3 <? Z.of_nat (length images))
         then
           show_form [("selected_chef_id", CInt chef_id);
                        ("error", CStr "Please upload 1-3 pizza images");
                        ("title", CStr "Submit Pizza for Judgment")]
         else if existsb bad_extension images
         then
           show_form
             [("selected_chef_id", CInt chef_id);
              ("error", CStr
                 "Invalid image format. Please use JPG, PNG, GIF, or WebP.");
              ("title", CStr "Submit Pizza for Judgment")]
         else
           pizza <- db_call (DatabaseManager.create_pizza chef_id) ;;
           pizza_image_paths <-
             save_pizza_images (Pizza.id pizza) 0 images [] ;;
           add_task (process_pizza_review_task (Pizza.id pizza)
                       pizza_image_paths (Chef.name chef)) ;;
           Eff.ret (RedirectResponse
                      ("/pizza/" +++ str_of_int (Pizza.id pizza)) 303)
     end)
    (fun e =>
       submit_form [("error", CStr ("Failed to submit pizza: "
                                    +++ str_of_exn e));
                    ("title", CStr "Submit Pizza for Judgment")]).

End WithExternals.

(** [d[key]] on the parsed review *)
Definition getitem {A} (key : string) (value : option A) : Session.M A :=
  match value with
  | Some v => Session.ret v
  | None => Session.raise (KeyError key)
  end.

(** [for category_name, score in review_data["scores"].items()] *)
Fixpoint add_scores (pizza_review_id : Z) (category_map : dict Z)
  (items : list (string * Z)) : Session.M unit :=
  match items with
  | [] => Session.ret tt
  | (category_name, score) :: rest =>
      match dict_get category_name category_map with
      | Some category_id =>
          add_PizzaReviewScore pizza_review_id category_id score ;;
          add_scores pizza_review_id category_map rest
      | None => add_scores pizza_review_id category_map rest
      end
  end.

(** The rows that loop adds, as a list: [rows] are the score rows the
    session already holds. *)
Fixpoint new_score_rows (pizza_review_id : Z) (category_map : dict Z)
  (items : list (string * Z)) (rows : list PizzaReviewScore.t)
  : list PizzaReviewScore.t :=
  match items with
  | [] => []
  | (category_name, score) :: rest =>
      match dict_get category_name category_map with
      | Some category_id =>
          let row :=
            {| PizzaReviewScore.id := next_id (map PizzaReviewScore.id rows);
               PizzaReviewScore.pizza_review_id := pizza_review_id;
               PizzaReviewScore.category_id := category_id;
               PizzaReviewScore.score := score |} in
          row :: new_score_rows pizza_review_id category_map rest
                   (rows ++ [row])
      | None => new_score_rows pizza_review_id category_map rest rows
      end
  end.

(** Every score that loop hands to the session fits in 64 bits. *)
Definition scores_fit (category_map : dict Z) (items : list (string * Z))
  : bool :=
  forallb
    (fun item =>
       match dict_get (fst item) category_map with
       | Some _ => int64 (snd item)
       | None => true
       end)
    items.

(** [category_map] as [process_pizza_review_background] builds it. *)
Definition category_map_of (db : Store) : dict Z :=
  dict_comp ReviewCategory.name ReviewCategory.id (review_categories db).

(** The review row it adds first. *)
Definition new_review (pizza_id : Z) (summary : string) (db : Store)
  : PizzaReview.t :=
  {| PizzaReview.id := next_id (map PizzaReview.id (pizza_review db));
     PizzaReview.pizza_id := pizza_id;
     PizzaReview.review_summary := summary |}.

(** The database part of [process_pizza_review_background]: from
    [session = db_manager.get_session()] to [session.close()]. *)
Definition save_review (pizza_id : Z) (review_data : ReviewData.t)
  (db : Store) : (exn + unit) * Store :=
  Session.run
    (Session.try_except
       (review_summary <-
          getitem "review_summary" (ReviewData.review_summary review_data) ;;
        review <- add_PizzaReview pizza_id review_summary ;;
        Session.commit ;;
        review <- refresh pizza_review PizzaReview.id review ;;
        categories <- Session.query review_categories ;;
        let category_map :=
          dict_comp ReviewCategory.name ReviewCategory.id categories in
        scores <- getitem "scores" (ReviewData.scores review_data) ;;
        add_scores (PizzaReview.id review) category_map scores ;;
        Session.commit)
       (fun db_error => Session.rollback))
    db.

Section WithExternals.
Context `{Externals}.

Definition process_pizza_review_background (pizza_id : Z)
  (image_paths : list string) (chef_name : string) (w : World) : World :=
  match Ai.review_pizza_images (db w) (fs_of w) image_paths chef_name
          (events w) with
  | (inr review_data, tr) =>
      let (_, db') := save_review pizza_id review_data (db w) in
      {| db := db'; files := files w; tasks := tasks w;
         uuid_draws := uuid_draws w; events := tr |}
  | (inl e, tr) =>
      {| db := db w; files := files w; tasks := tasks w;
         uuid_draws := uuid_draws w; events := tr |}
  end.

End WithExternals.

(** The scores joined to a pizza:
    [Pizza JOIN PizzaReview JOIN PizzaReviewScore]. *)
Definition joined_scores (db : Store) (p : Pizza.t) : list Z :=
  flat_map
    (fun r =>
       map PizzaReviewScore.score
           (filter (fun s => PizzaReviewScore.pizza_review_id s
                             =? PizzaReview.id r)
                   (pizza_review_scores db)))
    (filter (fun r => PizzaReview.pizza_id r =? Pizza.id p)
            (pizza_review db)).

(** Every partial sum of the group, and the number of its rows, is an
    integer that a double holds exactly. *)
Definition sums_exactly (scores : list Z) : bool :=
  (fold_left (fun a s => a + Z.abs s) scores 0 <=? 2 ^ 53)
  && (Z.of_nat (length scores) <=? 2 ^ 53).

Section WithSqlite.
Context `{Sqlite}.

(** [func.avg(PizzaReviewScore.score)] over a non-empty group: the sum
    divided by the count, in doubles. *)
Definition avg (scores : list Z) : Q :=
  if sums_exactly scores
  then double_div (fold_left Z.add scores 0) (Z.of_nat (length scores))
  else sql_avg scores.

(** [GROUP BY Pizza.id]: one group per pizza that has joined rows. *)
Fixpoint group_by_pizza (db : Store) (ps : list Pizza.t) : list (Z * Q) :=
  match ps with
  | [] => []
  | p :: rest =>
      match joined_scores db p with
      | [] => group_by_pizza db rest
      | scores => (Pizza.id p, avg scores) :: group_by_pizza db rest
      end
  end.

(** [x] is handed out before [y]: its average is the larger one, or the
    averages are equal and the engine ranks it first. *)
Definition goes_before (x y : Z * Q) : bool :=
  match (snd x ?= snd y)%Q with
  | Gt => true
  | Eq => tie_rank (fst x) <=? tie_rank (fst y)
  | Lt => false
  end.

(** [ORDER BY avg DESC] *)
Fixpoint insert_desc (x : Z * Q) (l : list (Z * Q)) : list (Z * Q) :=
  match l with
  | [] => [x]
  | y :: rest =>
      if goes_before x y then x :: y :: rest
      else y :: insert_desc x rest
  end.

Definition order_by_avg_desc (l : list (Z * Q)) : list (Z * Q) :=
  fold_right insert_desc [] l.

(** [... LIMIT 10] *)
Definition pizza_scores (db : Store) : list (Z * Q) :=
  firstn 10 (order_by_avg_desc (group_by_pizza db (pizzas db))).

End WithSqlite.

(** [for pizza_id, avg_score in pizza_scores: ...] *)
Fixpoint pizzas_with_scores (db : Store) (rows : list (Z * Q))
  : list (Pizza.t * Q) :=
  match rows with
  | [] => []
  | (pizza_id, avg_score) :: rest =>
      match find (fun p => Pizza.id p =? pizza_id) (pizzas db) with
      | Some pizza => (pizza, avg_score) :: pizzas_with_scores db rest
      | None => pizzas_with_scores db rest
      end
  end.



End App.

(** ** Deleting a chef *)

Module Cascade.

(** Modelled from the spec: no function of the repository deletes a
    chef.  [src/db.py] declares the cascades ([Chef.pizzas],
    [Pizza.images], [Pizza.review] and [PizzaReview.scores], each with
    [cascade="all, delete-orphan"]) and the spec states their effect:
    deleting a Chef transitively deletes its Pizzas, their Images, their
    Review, and that Review's Scores. *)

(** The keys of the pizzas owned by the chef. *)
Definition owned_pizzas (chef_id : Z) (db : Store) : list Z :=
  map Pizza.id (filter (fun p => Pizza.chef_id p =? chef_id) (pizzas db)).

Definition mem (x : Z) (xs : list Z) : bool := existsb (Z.eqb x) xs.

(** The keys of the reviews of those pizzas. *)
Definition owned_reviews (chef_id : Z) (db : Store) : list Z :=
  map PizzaReview.id
      (filter (fun r => mem (PizzaReview.pizza_id r) (owned_pizzas chef_id db))
              (pizza_review db)).

Definition delete_chef (chef_id : Z) (db : Store) : Store :=
  let ps := owned_pizzas chef_id db in
  let rs := owned_reviews chef_id db in
  {| chefs := filter (fun c => negb (Chef.id c =? chef_id)) (chefs db);
     pizzas := filter (fun p => negb (Pizza.chef_id p =? chef_id)) (pizzas db);
     pizza_images :=
       filter (fun i => negb (mem (PizzaImage.pizza_id i) ps))
              (pizza_images db);
     review_categories := review_categories db;
     pizza_review :=
       filter (fun r => negb (mem (PizzaReview.pizza_id r) ps))
              (pizza_review db);
     pizza_review_scores :=
       filter (fun s => negb (mem (PizzaReviewScore.pizza_review_id s) rs))
              (pizza_review_scores db) |}.

(** No orphans: every row that names a parent finds it. *)
Definition no_orphans (db : Store) : bool :=
  forallb (fun p => existsb (fun c => Chef.id c =? Pizza.chef_id p) (chefs db))
          (pizzas db)
  && forallb (fun i => existsb (fun p => Pizza.id p =? PizzaImage.pizza_id i)
                               (pizzas db))
             (pizza_images db)
  && forallb (fun r => existsb (fun p => Pizza.id p =? PizzaReview.pizza_id r)
                               (pizzas db))
             (pizza_review db)
  && forallb (fun s => existsb (fun r => PizzaReview.id r
                                         =? PizzaReviewScore.pizza_review_id s)
                               (pizza_review db))
             (pizza_review_scores db).

End Cascade.

(** ** Predicates the properties are stated with *)

(** Every table has distinct primary keys. *)
Definition keys_unique (db : Store) : Prop :=
  NoDup (map Chef.id (chefs db))
  /\ NoDup (map Pizza.id (pizzas db))
  /\ NoDup (map PizzaImage.id (pizza_images db))
  /\ NoDup (map ReviewCategory.id (review_categories db))
  /\ NoDup (map PizzaReview.id (pizza_review db))
  /\ NoDup (map PizzaReviewScore.id (pizza_review_scores db)).

(** The seconds slept in a trace. *)
Fixpoint slept (tr : trace) : Z :=
  match tr with
  | [] => 0
  | Sleep seconds :: rest => seconds + slept rest
  | _ :: rest => slept rest
  end.

(** The uploads that carry a file name. *)
Definition named_uploads (images : list App.UploadFile)
  : list App.UploadFile :=
  filter (fun image => match App.truthy_filename image with
                       | Some _ => true
                       | None => false
                       end) images.

(** ** A stub world for running the model *)

Module Stub.

(** The remote image call fails twice, then answers; every file reads;
    the review comes back with one known and one unknown category. *)
Definition externals : Externals := {|
  read_text := fun path => Some ("<" +++ path +++ ">");
  normalize_image := fun image => None;
  str_format := fun template chef_name => inr (template +++ chef_name);
  b64encode := fun data => "QQ==";
  b64decode := fun text => inr [Byte.x41];
  images_edit := fun k image prompt =>
    if (k <? 2)%nat then inl (ExternalError "timeout") else inr "QQ==";
  chat_completions_create := fun k request => inr "{...}";
  json_loads := fun text =>
    inr {| ReviewData.review_summary := Some "Good";
           ReviewData.scores := Some [("Shape", 4); ("Aroma", 2)] |};
  uuid4_hex8 := fun n => "0a1b2c3d";
  suffix_lower := fun name => ".jpg"
|}.

(** An engine that hands out equal averages latest pizza first, keeps
    the last joined review, and sums every group in integers. *)
Definition sqlite : Sqlite := {|
  sql_avg := fun scores =>
    double_div (fold_left Z.add scores 0) (Z.of_nat (length scores));
  tie_rank := fun pizza_id => - pizza_id;
  kept_row := fun joined => Nat.pred (length joined)
|}.

(** The store after [init_db()] on a new database. *)
Definition seeded : Store :=
  snd (DatabaseManager.initialize_database empty_store).

Definition world : App.World :=
  {| App.db := seeded; App.files := []; App.tasks := [];
     App.uuid_draws := 0%nat; App.events := [] |}.

(** The same world, but the review comes back without its scores. *)
Definition scoreless : Externals := {|
  read_text := @read_text externals;
  normalize_image := @normalize_image externals;
  str_format := @str_format externals;
  b64encode := @b64encode externals;
  b64decode := @b64decode externals;
  images_edit := @images_edit externals;
  chat_completions_create := @chat_completions_create externals;
  json_loads := fun text =>
    inr {| ReviewData.review_summary := Some "Good";
           ReviewData.scores := None |};
  uuid4_hex8 := @uuid4_hex8 externals;
  suffix_lower := @suffix_lower externals
|}.

(** The same world, but every upload has the suffix of a bitmap. *)
Definition bitmaps : Externals := {|
  read_text := @read_text externals;
  normalize_image := @normalize_image externals;
  str_format := @str_format externals;
  b64encode := @b64encode externals;
  b64decode := @b64decode externals;
  images_edit := @images_edit externals;
  chat_completions_create := @chat_completions_create externals;
  json_loads := @json_loads externals;
  uuid4_hex8 := @uuid4_hex8 externals;
  suffix_lower := fun name => ".bmp"
|}.

(** The same world, but no prompt file can be read. *)
Definition promptless : Externals := {|
  read_text := fun path => None;
  normalize_image := @normalize_image externals;
  str_format := @str_format externals;
  b64encode := @b64encode externals;
  b64decode := @b64decode externals;
  images_edit := @images_edit externals;
  chat_completions_create := @chat_completions_create externals;
  json_loads := @json_loads externals;
  uuid4_hex8 := @uuid4_hex8 externals;
  suffix_lower := @suffix_lower externals
|}.

(** Mario registers and submits one photo of a pizza. *)
Definition margherita : App.UploadFile :=
  {| App.filename := Some "margherita.jpg"; App.content := [Byte.x41] |}.

Definition submitted : App.World :=
  snd (@App.submit_pizza_handler externals 1 [margherita]
         (snd (@App.create_chef_submit externals "Mario" None world))).

(** The background task has reviewed that pizza. *)
Definition reviewed : App.World :=
  @App.process_pizza_review_background externals 1
    ["/static/images/pizzas/pizza_1_1_0a1b2c3d.jpg"] "Mario" submitted.

(** Luigi registers too, and submits nothing. *)
Definition two_chefs : Store :=
  snd (DatabaseManager.create_chef "Luigi" None (App.db reviewed)).

(** Two reviewed pizzas, each with the single score 3. *)
Definition tied : Store :=
  {| chefs := [{| Chef.id := 1; Chef.name := "Mario";
                  Chef.image_path := None |}];
     pizzas := [{| Pizza.id := 1; Pizza.chef_id := 1 |};
                {| Pizza.id := 2; Pizza.chef_id := 1 |}];
     pizza_images := [];
     review_categories := review_categories seeded;
     pizza_review :=
       [{| PizzaReview.id := 1; PizzaReview.pizza_id := 1;
           PizzaReview.review_summary := "Fine" |};
        {| PizzaReview.id := 2; PizzaReview.pizza_id := 2;
           PizzaReview.review_summary := "Fine too" |}];
     pizza_review_scores :=
       [{| PizzaReviewScore.id := 1; PizzaReviewScore.pizza_review_id := 1;
           PizzaReviewScore.category_id := 6; PizzaReviewScore.score := 3 |};
        {| PizzaReviewScore.id := 2; PizzaReviewScore.pizza_review_id := 2;
           PizzaReviewScore.category_id := 6; PizzaReviewScore.score := 3 |}]
  |}.

End Stub.

(** * Properties *)

(** ** Keys *)

Lemma fold_max_ge_init (l : list Z) (a : Z) : a <= fold_left Z.max l a.
Proof.
  revert a. induction l as [|x l IH]; intros a; simpl.
  - lia.
  - specialize (IH (Z.max a x)). lia.
Qed.

Lemma fold_max_ge_elem (l : list Z) (a x : Z) :
  In x l -> x <= fold_left Z.max l a.
Proof.
  revert a. induction l as [|y l IH]; intros a Hin; simpl.
  - contradiction.
  - destruct Hin as [->|Hin].
    + pose proof (fold_max_ge_init l (Z.max a x)). lia.
    + now apply IH.
Qed.

Lemma next_id_above (ids : list Z) (x : Z) : In x ids -> x < next_id ids.
Proof.
  destruct ids as [|i rest]; simpl; [contradiction|].
  intros [->|Hin].
  - pose proof (fold_max_ge_init rest x). lia.
  - pose proof (fold_max_ge_elem rest i x Hin). lia.
Qed.

Lemma next_id_fresh (ids : list Z) : ~ In (next_id ids) ids.
Proof. intros Hin. apply next_id_above in Hin. lia. Qed.

Lemma find_key_none {A} (key : A -> Z) (k : Z) (rows : list A) :
  ~ In k (map key rows) -> find (fun r => key r =? k) rows = None.
Proof.
  induction rows as [|r rows IH]; simpl; intros Hnin; [reflexivity|].
  destruct (Z.eqb_spec (key r) k) as [Heq|Hne].
  - exfalso. apply Hnin. now left.
  - apply IH. intros Hin. apply Hnin. now right.
Qed.

Lemma find_app_none {A} (f : A -> bool) (l1 l2 : list A) :
  find f l1 = None -> find f (l1 ++ l2) = find f l2.
Proof.
  induction l1 as [|x l1 IH]; simpl; [reflexivity|].
  destruct (f x); [discriminate|exact IH].
Qed.

Lemma find_app_some {A} (f : A -> bool) (l1 l2 : list A) (x : A) :
  find f l1 = Some x -> find f (l1 ++ l2) = Some x.
Proof.
  induction l1 as [|y l1 IH]; simpl; [discriminate|].
  destruct (f y); [trivial|exact IH].
Qed.

Lemma find_app_fresh {A} (key : A -> Z) (rows : list A) (obj : A) :
  ~ In (key obj) (map key rows) ->
  find (fun r => key r =? key obj) (rows ++ [obj]) = Some obj.
Proof.
  intros Hnin. rewrite find_app_none by now apply find_key_none.
  simpl. now rewrite Z.eqb_refl.
Qed.

(** ** [create_chef] and [create_pizza] *)

Ltac run_session :=
  unfold Session.run, Session.try_except, Session.commit, Session.rollback,
    Session.stage, Session.update, Session.query, Session.ret, Session.raise,
    Eff.try_except, Eff.bind, Eff.ret, Eff.raise, Eff.modify;
  cbn [forallb]; rewrite ?andb_true_r.

Lemma create_chef_run (name : string) (image_path : option string)
  (db : Store) :
  let chef := {| Chef.id := next_id (map Chef.id (chefs db));
                 Chef.name := name; Chef.image_path := image_path |} in
  DatabaseManager.create_chef name image_path db
  = (inr chef, set_chefs db (chefs db ++ [chef])).
Proof.
  intros chef. unfold DatabaseManager.create_chef, add_Chef, refresh.
  run_session. simpl.
  pose proof (find_app_fresh Chef.id (chefs db) chef
                (next_id_fresh _)) as Hfind.
  simpl in Hfind. fold chef. rewrite Hfind. reflexivity.
Qed.

Lemma create_pizza_run (chef_id : Z) (db : Store) :
  int64 chef_id = true ->
  let pizza := {| Pizza.id := next_id (map Pizza.id (pizzas db));
                  Pizza.chef_id := chef_id |} in
  DatabaseManager.create_pizza chef_id db
  = (inr pizza, set_pizzas db (pizzas db ++ [pizza])).
Proof.
  intros Hfit pizza.
  unfold DatabaseManager.create_pizza, add_Pizza, refresh.
  run_session. rewrite Hfit. simpl.
  pose proof (find_app_fresh Pizza.id (pizzas db) pizza
                (next_id_fresh _)) as Hfind.
  simpl in Hfind. fold pizza. rewrite Hfind. reflexivity.
Qed.

(** A [chef_id] that SQLite cannot hold: the commit raises, the
    [except] clause rolls back and raises again. *)
Lemma create_pizza_overflow (chef_id : Z) (db : Store) :
  int64 chef_id = false ->
  DatabaseManager.create_pizza chef_id db = (inl int_too_large, db).
Proof.
  intros Hbig. unfold DatabaseManager.create_pizza, add_Pizza.
  run_session. rewrite Hbig. reflexivity.
Qed.

Lemma length_zero_iff_empty (s : string) :
  (String.length s =? 0)%nat = true <-> s = EmptyString.
Proof.
  destruct s; simpl; split; intros Heq; try reflexivity; discriminate.
Qed.

(** The test [not name or len(name.strip()) == 0] of the handler. *)
Lemma name_required_test (name : string) :
  (String.length name =? 0)%nat || (String.length (strip name) =? 0)%nat
  = true <-> strip name = EmptyString.
Proof.
  rewrite orb_true_iff, !length_zero_iff_empty. split.
  - intros [->|Hs]; [reflexivity|exact Hs].
  - intros Hs. now right.
Qed.

Section RequestLayer.
Context `{Externals}.

Import App.

Lemma create_chef_finish_run (name : string) (temp_image_path : option string)
  (ai : bool) (image_content : option bytes)
  (original_filename : option string) (w : World) :
  let chef := {| Chef.id := next_id (map Chef.id (chefs (db w)));
                 Chef.name := strip name;
                 Chef.image_path := temp_image_path |} in
  exists w',
    create_chef_finish name temp_image_path ai image_content
      original_filename w
    = (inr (RedirectResponse ("/chef/" +++ str_of_int (Chef.id chef)) 303), w')
    /\ db w' = set_chefs (db w) (chefs (db w) ++ [chef])
    /\ files w' = files w.
Proof.
  unfold create_chef_finish, db_call, add_task, Eff.bind, Eff.ret, Eff.modify.
  rewrite create_chef_run. cbv zeta.
  destruct ai; [destruct image_content as [[|b bs]|]|]; simpl; eauto.
Qed.

(** C3, the counterexample: given the empty name, [create_chef] returns
    a chef and stores its row. *)
Lemma create_chef_empty_name_stored :
  let out := DatabaseManager.create_chef EmptyString None empty_store in
  let chef := {| Chef.id := 1; Chef.name := EmptyString;
                 Chef.image_path := None |} in
  fst out = inr chef /\ chefs (snd out) = [chef].
Proof. split; reflexivity. Qed.

(** C3, as amended: [create_chef] validates nothing; for every name,
    empty or not, it stores a chef row with that name and returns it
    (the key of the row is one more than the largest key in use, in a
    table that has room for it).  The check is made by the handler of
    [POST /create-chef].  A name that is empty once stripped is answered
    with the form and the error "Chef name is required", and the world
    is left as it was.  For any other name: an upload with a file name
    whose extension is not allowed is answered with the form and the
    error "Invalid image format. ...", and the world is left as it was;
    in every other case the handler adds one chef row, whose name is
    the stripped name, and redirects to the page of that chef. *)
Theorem create_chef_stores_any_name (name : string)
  (image_path : option string) (store : Store)
  (image : option UploadFile) (w : World) :
  (has_room (map Chef.id (chefs store)) = true ->
   let chef := {| Chef.id := next_id (map Chef.id (chefs store));
                  Chef.name := name; Chef.image_path := image_path |} in
   DatabaseManager.create_chef name image_path store
   = (inr chef, set_chefs store (chefs store ++ [chef])))
  /\ (strip name = EmptyString ->
      create_chef_submit name image w
      = (TemplateResponse "create_chef.html"
           [("title", CStr "Create New Chef");
            ("error", CStr "Chef name is required");
            ("name", CStr name)], w))
  /\ (strip name <> EmptyString ->
      let turned_down :=
        match image with
        | Some upload => bad_extension upload
        | None => false
        end in
      let out := create_chef_submit name image w in
      (turned_down = true ->
       out = (TemplateResponse "create_chef.html"
                [("title", CStr "Create New Chef");
                 ("error", CStr
                    "Invalid image format. Please use JPG, PNG, GIF, or WebP.");
                 ("name", CStr name)], w))
      /\ (turned_down = false ->
          exists chef,
            fst out
            = RedirectResponse ("/chef/" +++ str_of_int (Chef.id chef)) 303
            /\ db (snd out) = set_chefs (db w) (chefs (db w) ++ [chef])
            /\ Chef.name chef = strip name)).
Proof.
  split; [intros _; apply create_chef_run|]. split.
  - intros Hempty. apply name_required_test in Hempty.
    unfold create_chef_submit, handle. now rewrite Hempty.
  - intros Hname turned_down out.
    assert (Htest : (String.length name =? 0)%nat
                    || (String.length (strip name) =? 0)%nat = false).
    { destruct (_ || _) eqn:E; [|reflexivity].
      apply name_required_test in E. contradiction. }
    assert (Hfinish : forall p ai c f w0,
      db w0 = db w ->
      exists chef,
        fst (handle (create_chef_finish name p ai c f)
               (fun e _ =>
                  TemplateResponse "create_chef.html"
                    [("title", CStr "Create New Chef");
                     ("error", CStr ("Failed to create chef: "
                                     +++ str_of_exn e));
                     ("name", CStr name)]) w0)
        = RedirectResponse ("/chef/" +++ str_of_int (Chef.id chef)) 303
        /\ db (snd (handle (create_chef_finish name p ai c f)
                      (fun e _ =>
                         TemplateResponse "create_chef.html"
                           [("title", CStr "Create New Chef");
                            ("error", CStr ("Failed to create chef: "
                                            +++ str_of_exn e));
                            ("name", CStr name)]) w0))
           = set_chefs (db w) (chefs (db w) ++ [chef])
        /\ Chef.name chef = strip name).
    { intros p ai c f w0 Hdb0.
      destruct (create_chef_finish_run name p ai c f w0)
        as (w1 & Hrun & Hdb & _).
      unfold handle. rewrite Hrun. simpl. rewrite Hdb0 in *.
      exists {| Chef.id := next_id (map Chef.id (chefs (db w)));
                Chef.name := strip name; Chef.image_path := p |}.
      split; [reflexivity|]. split; [exact Hdb|reflexivity]. }
    subst out turned_down. unfold create_chef_submit.
    destruct image as [upload|].
    + unfold bad_extension.
      destruct (truthy_filename upload) as [fname|] eqn:Hfname.
      * destruct (negb (in_set (suffix_lower fname) allowed_extensions))
          eqn:Hext.
        -- split; [intros _|discriminate].
           unfold handle. rewrite Htest. reflexivity.
        -- split; [discriminate|intros _].
           unfold handle at 1 2. rewrite Htest.
           unfold Eff.bind at 1 3, uuid_hex8.
           unfold Eff.bind at 1 2, write_file, Eff.modify.
           match goal with
           | |- context [create_chef_finish name ?p ?ai ?c ?f ?w0] =>
               destruct (Hfinish p ai c f w0 eq_refl)
                 as (chef & Hr & Hdb & Hn)
           end.
           unfold handle in Hr, Hdb. exists chef. auto.
      * split; [discriminate|intros _].
        destruct (Hfinish None false None None w eq_refl)
          as (chef & Hr & Hdb & Hn).
        unfold handle in *. rewrite Htest. exists chef. auto.
    + split; [discriminate|intros _].
      destruct (Hfinish None false None None w eq_refl)
        as (chef & Hr & Hdb & Hn).
      unfold handle in *. rewrite Htest. exists chef. auto.
Qed.

End RequestLayer.

Lemma create_chef_stores_any_name_witness :
  (has_room (map Chef.id (chefs Stub.seeded)) = true
   /\ DatabaseManager.create_chef "Mario" None Stub.seeded
      = (inr {| Chef.id := 1; Chef.name := "Mario";
                Chef.image_path := None |},
         set_chefs Stub.seeded
           [{| Chef.id := 1; Chef.name := "Mario";
               Chef.image_path := None |}]))
  /\ (strip "   " = EmptyString
      /\ @App.create_chef_submit Stub.externals "   " None Stub.world
         = (App.TemplateResponse "create_chef.html"
              [("title", App.CStr "Create New Chef");
               ("error", App.CStr "Chef name is required");
               ("name", App.CStr "   ")], Stub.world))
  /\ (strip " Mario " <> EmptyString
      /\ @App.bad_extension Stub.bitmaps Stub.margherita = true
      /\ @App.create_chef_submit Stub.bitmaps " Mario "
           (Some Stub.margherita) Stub.world
         = (App.TemplateResponse "create_chef.html"
              [("title", App.CStr "Create New Chef");
               ("error", App.CStr
                  "Invalid image format. Please use JPG, PNG, GIF, or WebP.");
               ("name", App.CStr " Mario ")], Stub.world))
  /\ (strip " Mario " <> EmptyString
      /\ exists chef,
           fst (@App.create_chef_submit Stub.externals " Mario " None
                  Stub.world)
           = App.RedirectResponse
               ("/chef/" +++ str_of_int (Chef.id chef)) 303
           /\ App.db (snd (@App.create_chef_submit Stub.externals
                             " Mario " None Stub.world))
              = set_chefs (App.db Stub.world)
                  (chefs (App.db Stub.world) ++ [chef])
           /\ Chef.name chef = strip " Mario ").
Proof.
  split; [|split; [|split]].
  - split; [reflexivity|].
    apply (@create_chef_stores_any_name Stub.externals
             "Mario" None Stub.seeded None Stub.world).
    reflexivity.
  - split; [reflexivity|].
    apply (@create_chef_stores_any_name Stub.externals
             "   " None empty_store None Stub.world).
    reflexivity.
  - split; [discriminate|]. split; [reflexivity|].
    apply (@create_chef_stores_any_name Stub.bitmaps
             " Mario " None empty_store (Some Stub.margherita) Stub.world).
    + discriminate.
    + reflexivity.
  - split; [discriminate|].
    apply (@create_chef_stores_any_name Stub.externals
             " Mario " None empty_store None Stub.world).
    + discriminate.
    + reflexivity.
Defined.

Section PizzaSubmission.
Context `{Externals}.

Import App.

(** C2, the counterexample: no chef has key 7, and [create_pizza 7]
    returns a pizza and stores its row. *)
Lemma create_pizza_unknown_chef_stored :
  let out := DatabaseManager.create_pizza 7 empty_store in
  let pizza := {| Pizza.id := 1; Pizza.chef_id := 7 |} in
  DatabaseManager.get_chef_by_id empty_store 7 = inr None
  /\ fst out = inr pizza /\ pizzas (snd out) = [pizza].
Proof. repeat split; reflexivity. Qed.

(** C2, as amended: [create_pizza] does not look for the chef.  For
    every [chef_id] that fits in 64 bits, whether or not a chef has that
    key, it stores a pizza row with that [chef_id] and returns it (the
    key of the row is one more than the largest key in use, in a table
    that has room for it); for any other [chef_id] it raises
    [OverflowError] and stores nothing.  The check is made by the
    handler of [POST /submit-pizza]: for a [chef_id] that fits in 64
    bits and is the key of no chef it answers with the form and the
    error "Invalid chef selected", calls nothing else, and leaves the
    world (so the pizzas table) as it was; for a [chef_id] that does not
    fit it answers with the form and the error "Failed to submit pizza:
    Python int too large to convert to SQLite INTEGER", and leaves the
    world as it was. *)
Theorem create_pizza_checks_nothing (chef_id : Z) (store : Store)
  (images : list UploadFile) (w : World) :
  (int64 chef_id = true ->
   has_room (map Pizza.id (pizzas store)) = true ->
   let pizza := {| Pizza.id := next_id (map Pizza.id (pizzas store));
                   Pizza.chef_id := chef_id |} in
   DatabaseManager.create_pizza chef_id store
   = (inr pizza, set_pizzas store (pizzas store ++ [pizza])))
  /\ (int64 chef_id = false ->
      DatabaseManager.create_pizza chef_id store
      = (inl int_too_large, store))
  /\ (int64 chef_id = true ->
      ~ In chef_id (map Chef.id (chefs (db w))) ->
      submit_pizza_handler chef_id images w
      = (TemplateResponse "submit_pizza.html"
           [("chefs", CChefs (DatabaseManager.get_all_chefs (db w)));
            ("error", CStr "Invalid chef selected");
            ("title", CStr "Submit Pizza for Judgment")], w))
  /\ (int64 chef_id = false ->
      submit_pizza_handler chef_id images w
      = (TemplateResponse "submit_pizza.html"
           [("chefs", CChefs (DatabaseManager.get_all_chefs (db w)));
            ("error", CStr
               "Failed to submit pizza: Python int too large to convert to SQLite INTEGER");
            ("title", CStr "Submit Pizza for Judgment")], w)).
Proof.
  split; [intros Hfit _; now apply create_pizza_run|].
  split; [apply create_pizza_overflow|].
  split.
  - intros Hfit Hunknown.
    unfold submit_pizza_handler, handle, db_read, Eff.bind,
      DatabaseManager.get_chef_by_id, DatabaseManager.bound.
    rewrite Hfit, (find_key_none Chef.id chef_id _ Hunknown).
    reflexivity.
  - intros Hbig.
    unfold submit_pizza_handler, handle, db_read, Eff.bind,
      DatabaseManager.get_chef_by_id, DatabaseManager.bound.
    rewrite Hbig. reflexivity.
Qed.

End PizzaSubmission.

Lemma create_pizza_checks_nothing_witness :
  (int64 7 = true
   /\ has_room (map Pizza.id (pizzas Stub.seeded)) = true
   /\ DatabaseManager.create_pizza 7 Stub.seeded
      = (inr {| Pizza.id := 1; Pizza.chef_id := 7 |},
         set_pizzas Stub.seeded [{| Pizza.id := 1; Pizza.chef_id := 7 |}]))
  /\ (int64 (2 ^ 63) = false
      /\ DatabaseManager.create_pizza (2 ^ 63) Stub.seeded
         = (inl int_too_large, Stub.seeded))
  /\ (int64 7 = true
      /\ ~ In 7 (map Chef.id (chefs (App.db Stub.world)))
      /\ @App.submit_pizza_handler Stub.externals 7 [Stub.margherita]
           Stub.world
         = (App.TemplateResponse "submit_pizza.html"
              [("chefs", App.CChefs []);
               ("error", App.CStr "Invalid chef selected");
               ("title", App.CStr "Submit Pizza for Judgment")],
            Stub.world))
  /\ (int64 (2 ^ 63) = false
      /\ @App.submit_pizza_handler Stub.externals (2 ^ 63)
           [Stub.margherita] Stub.world
         = (App.TemplateResponse "submit_pizza.html"
              [("chefs", App.CChefs []);
               ("error", App.CStr
                  "Failed to submit pizza: Python int too large to convert to SQLite INTEGER");
               ("title", App.CStr "Submit Pizza for Judgment")],
            Stub.world)).
Proof.
  split; [|split; [|split]].
  - split; [reflexivity|]. split; [reflexivity|].
    apply (@create_pizza_checks_nothing Stub.externals 7 Stub.seeded
             [Stub.margherita] Stub.world); reflexivity.
  - split; [reflexivity|].
    apply (@create_pizza_checks_nothing Stub.externals (2 ^ 63) Stub.seeded
             [Stub.margherita] Stub.world); reflexivity.
  - split; [reflexivity|]. split; [intros []|].
    apply (@create_pizza_checks_nothing Stub.externals 7 Stub.seeded
             [Stub.margherita] Stub.world); [reflexivity|intros []].
  - split; [reflexivity|].
    apply (@create_pizza_checks_nothing Stub.externals (2 ^ 63) Stub.seeded
             [Stub.margherita] Stub.world); reflexivity.
Defined.

Lemma remote_calls_app (tr1 tr2 : trace) :
  remote_calls (tr1 ++ tr2) = (remote_calls tr1 + remote_calls tr2)%nat.
Proof. unfold remote_calls. now rewrite filter_app, length_app. Qed.

(** ** [generate_chef_image] *)

Section Retry.
Context `{Externals}.
Import Ai.

Lemma attempt_once_run (image : bytes) (prompt : string) (tr : trace) :
  attempt_once image prompt tr
  = (inr (attempt_outcome (remote_calls tr) image prompt),
     tr ++ [ImagesEdit image prompt]).
Proof.
  unfold attempt_once, attempt_outcome, client_images_edit, Eff.try_except,
    Eff.bind, Eff.lift_result, Eff.ret.
  destruct (images_edit (remote_calls tr) image prompt) as [e|b64];
    [reflexivity|].
  now destruct (b64decode b64).
Qed.

(** One pass of the loop, by the outcome of its attempt. *)
Lemma retry_loop_step (image : bytes) (prompt : string) (attempt : Z)
  (rest : list Z) (delay : Z) (tr : trace) :
  retry_loop image prompt (attempt :: rest) delay tr
  = match attempt_outcome (remote_calls tr) image prompt with
    | inr image_bytes =>
        (inr (Some image_bytes), tr ++ [ImagesEdit image prompt])
    | inl e =>
        if attempt =? max_retries - 1
        then (inl e, tr ++ [ImagesEdit image prompt])
        else retry_loop image prompt rest (delay * 2)
               ((tr ++ [ImagesEdit image prompt]) ++ [Sleep delay])
    end.
Proof.
  simpl. unfold Eff.bind at 1. rewrite attempt_once_run.
  destruct (attempt_outcome (remote_calls tr) image prompt) as [e|b];
    [|reflexivity].
  change (max_retries - 1) with 2.
  destruct (attempt =? 2); reflexivity.
Qed.

Lemma retry_loop_calls (image : bytes) (prompt : string) (attempts : list Z)
  (delay : Z) (tr : trace) :
  (remote_calls (snd (retry_loop image prompt attempts delay tr))
   <= remote_calls tr + length attempts)%nat.
Proof.
  revert delay tr. induction attempts as [|attempt rest IH]; intros delay tr.
  - simpl. lia.
  - rewrite retry_loop_step.
    destruct (attempt_outcome _ _ _) as [e|b].
    + destruct (attempt =? max_retries - 1).
      * simpl. rewrite remote_calls_app.
        change (remote_calls [ImagesEdit image prompt]) with 1%nat. lia.
      * specialize (IH (delay * 2)
                       ((tr ++ [ImagesEdit image prompt]) ++ [Sleep delay])).
        rewrite !remote_calls_app in IH.
        change (remote_calls [ImagesEdit image prompt]) with 1%nat in IH.
        change (remote_calls [Sleep delay]) with 0%nat in IH.
        cbn [length]. lia.
    + simpl. rewrite remote_calls_app.
      change (remote_calls [ImagesEdit image prompt]) with 1%nat. lia.
Qed.

(** The three passes of [range(3)], unrolled. *)
Lemma retry_loop_three (image : bytes) (prompt : string) (tr : trace) :
  let k := remote_calls tr in
  let call := ImagesEdit image prompt in
  retry_loop image prompt (range 3) 2 tr
  = match attempt_outcome k image prompt with
    | inr image_bytes => (inr (Some image_bytes), tr ++ [call])
    | inl _ =>
        match attempt_outcome (k + 1) image prompt with
        | inr image_bytes =>
            (inr (Some image_bytes), tr ++ [call; Sleep 2; call])
        | inl _ =>
            match attempt_outcome (k + 2) image prompt with
            | inr image_bytes =>
                (inr (Some image_bytes),
                 tr ++ [call; Sleep 2; call; Sleep 4; call])
            | inl e =>
                (inl e, tr ++ [call; Sleep 2; call; Sleep 4; call])
            end
        end
    end.
Proof.
  intros k call. change (range 3) with [0; 1; 2].
  rewrite retry_loop_step. fold k call.
  destruct (attempt_outcome k image prompt) as [e0|b0]; [|reflexivity].
  change (0 =? max_retries - 1) with false. cbv iota.
  rewrite retry_loop_step, <- app_assoc. fold call.
  replace (remote_calls (tr ++ [call] ++ [Sleep 2])) with (k + 1)%nat
    by (rewrite remote_calls_app; subst k; unfold remote_calls; simpl; lia).
  destruct (attempt_outcome (k + 1) image prompt) as [e1|b1];
    [|now rewrite <- app_assoc].
  change (1 =? max_retries - 1) with false. cbv iota.
  rewrite retry_loop_step, <- !app_assoc. fold call.
  replace (remote_calls (tr ++ [call] ++ [Sleep 2] ++ [call]
                            ++ [Sleep (2 * 2)]))
    with (k + 2)%nat
    by (rewrite remote_calls_app; subst k; unfold remote_calls; simpl; lia).
  destruct (attempt_outcome (k + 2) image prompt) as [e2|b2]; reflexivity.
Qed.

(** C4: [generate_chef_image] makes at most three remote calls.  When
    the prompt file reads and the first two attempts fail and the third
    succeeds, it returns the third attempt's bytes, and what happened is
    exactly: call, sleep 2, call, sleep 4, call.  When all three attempts
    fail, the same five events happen and the exception of the third
    attempt is the one raised. *)
Theorem generate_chef_image_retries (reference_image_bytes : bytes)
  (tr : trace) :
  let sent := match normalize_image reference_image_bytes with
              | Some processed => processed
              | None => reference_image_bytes
              end in
  let k := remote_calls tr in
  let out := generate_chef_image reference_image_bytes tr in
  (remote_calls (snd out) <= k + 3)%nat
  /\ forall prompt,
       read_text "src/prompts/chef_image.txt" = Some prompt ->
       let retried :=
         tr ++ [ImagesEdit sent prompt; Sleep 2;
                ImagesEdit sent prompt; Sleep 4;
                ImagesEdit sent prompt] in
       (forall e0 e1 image_bytes,
          attempt_outcome k sent prompt = inl e0 ->
          attempt_outcome (k + 1) sent prompt = inl e1 ->
          attempt_outcome (k + 2) sent prompt = inr image_bytes ->
          out = (inr (Some image_bytes), retried))
       /\ (forall e0 e1 e2,
             attempt_outcome k sent prompt = inl e0 ->
             attempt_outcome (k + 1) sent prompt = inl e1 ->
             attempt_outcome (k + 2) sent prompt = inl e2 ->
             out = (inl e2, retried)).
Proof.
  intros sent k out. split.
  - subst out. unfold generate_chef_image, open_read, Eff.bind.
    fold sent.
    destruct (read_text "src/prompts/chef_image.txt") as [prompt|].
    + unfold Eff.ret at 1.
      exact (retry_loop_calls sent prompt (range (Z.to_nat max_retries)) 2 tr).
    + simpl. subst k. lia.
  - intros prompt Hprompt retried.
    assert (Hout : out = retry_loop sent prompt (range 3) 2 tr).
    { subst out. unfold generate_chef_image, open_read, Eff.bind.
      fold sent. rewrite Hprompt. reflexivity. }
    rewrite Hout, retry_loop_three. fold k.
    split.
    + intros e0 e1 image_bytes H0 H1 H2. now rewrite H0, H1, H2.
    + intros e0 e1 e2 H0 H1 H2. now rewrite H0, H1, H2.
Qed.

End Retry.

Lemma generate_chef_image_retries_witness :
  @Ai.generate_chef_image Stub.externals [Byte.x50] []
  = (inr (Some [Byte.x41]),
     [ImagesEdit [Byte.x50] "<src/prompts/chef_image.txt>"; Sleep 2;
      ImagesEdit [Byte.x50] "<src/prompts/chef_image.txt>"; Sleep 4;
      ImagesEdit [Byte.x50] "<src/prompts/chef_image.txt>"]).
Proof.
  destruct (@generate_chef_image_retries Stub.externals [Byte.x50] [])
    as [_ Hretry].
  destruct (Hretry "<src/prompts/chef_image.txt>" eq_refl) as [Hthird _].
  exact (Hthird (ExternalError "timeout") (ExternalError "timeout")
           [Byte.x41] eq_refl eq_refl eq_refl).
Defined.

(** ** Dictionaries *)

Lemma dict_get_set_eq {V} (k : string) (v : V) (d : dict V) :
  dict_get k (dict_set k v d) = Some v.
Proof.
  induction d as [|[k' v'] d IH]; simpl.
  - now rewrite String.eqb_refl.
  - destruct (String.eqb_spec k k') as [->|Hne]; simpl.
    + now rewrite String.eqb_refl.
    + destruct (String.eqb_spec k k'); [contradiction|exact IH].
Qed.

Lemma dict_get_set_ne {V} (k k' : string) (v : V) (d : dict V) :
  k <> k' -> dict_get k (dict_set k' v d) = dict_get k d.
Proof.
  intros Hne. induction d as [|[k0 v0] d IH]; simpl.
  - destruct (String.eqb_spec k k'); [contradiction|reflexivity].
  - destruct (String.eqb_spec k' k0) as [->|Hne0]; simpl.
    + destruct (String.eqb_spec k k0); [contradiction|reflexivity].
    + destruct (String.eqb_spec k k0); [reflexivity|exact IH].
Qed.

(** Keys that the comprehension does not produce keep what they had. *)
Lemma dict_get_fold_other {A V} (key : A -> string) (val : A -> V)
  (xs : list A) (d : dict V) (k : string) :
  ~ In k (map key xs) ->
  dict_get k (fold_left (fun d x => dict_set (key x) (val x) d) xs d)
  = dict_get k d.
Proof.
  revert d. induction xs as [|x xs IH]; intros d Hnin; simpl; [reflexivity|].
  rewrite IH by (intros Hin; apply Hnin; now right).
  apply dict_get_set_ne. intros ->. apply Hnin. now left.
Qed.

Lemma dict_comp_unknown {A V} (key : A -> string) (val : A -> V)
  (xs : list A) (k : string) :
  ~ In k (map key xs) -> dict_get k (dict_comp key val xs) = None.
Proof.
  intros Hnin. unfold dict_comp. now rewrite dict_get_fold_other.
Qed.

(** With distinct keys the comprehension maps each key to its value. *)
Lemma dict_get_fold_known {A V} (key : A -> string) (val : A -> V)
  (xs : list A) (d : dict V) (x : A) :
  NoDup (map key xs) -> In x xs ->
  dict_get (key x) (fold_left (fun d x => dict_set (key x) (val x) d) xs d)
  = Some (val x).
Proof.
  revert d. induction xs as [|y xs IH]; intros d Hnd Hin; simpl in *;
    [contradiction|].
  inversion Hnd as [|? ? Hnotin Hnd']; subst.
  destruct Hin as [->|Hin].
  - rewrite dict_get_fold_other by exact Hnotin. apply dict_get_set_eq.
  - now apply IH.
Qed.

Lemma dict_comp_known {A V} (key : A -> string) (val : A -> V)
  (xs : list A) (x : A) :
  NoDup (map key xs) -> In x xs ->
  dict_get (key x) (dict_comp key val xs) = Some (val x).
Proof. apply dict_get_fold_known. Qed.

(** A comprehension with one value for every key. *)
Lemma dict_get_fold_const {A V} (key : A -> string) (v : V)
  (xs : list A) (d : dict V) (k : string) :
  In k (map key xs) ->
  dict_get k (fold_left (fun d x => dict_set (key x) v d) xs d) = Some v.
Proof.
  revert d. induction xs as [|x xs IH]; intros d Hin; simpl in *;
    [contradiction|].
  destruct (in_dec string_dec k (map key xs)) as [Hin'|Hnin].
  - now apply IH.
  - destruct Hin as [<-|Hin]; [|contradiction].
    rewrite (dict_get_fold_other key (fun _ => v)) by exact Hnin.
    apply dict_get_set_eq.
Qed.

(** ** [review_pizza_images] *)

Section Review.
Context `{Externals}.
Import Ai.

Lemma build_image_parts_unreadable (fs : string -> option bytes)
  (paths : list string) (parts : list string) :
  (forall p, In p paths -> fs (path_join_src (lstrip_slash p)) = None) ->
  build_image_parts fs paths parts = parts.
Proof.
  revert parts. induction paths as [|p paths IH]; intros parts Hnone; simpl;
    [reflexivity|].
  rewrite (Hnone p) by now left.
  apply IH. intros q Hq. apply Hnone. now right.
Qed.

(** C5: when no image path resolves to a readable file (the empty path
    list included), [review_pizza_images] makes no remote call; and when
    the system prompt loads, it returns the summary "No images supplied
    for review." and a score mapping in which every known category name
    has 0 and no other name has an entry. *)
Theorem review_without_images (store : Store) (fs : string -> option bytes)
  (pizza_image_paths : list string) (chef_name : string) (tr : trace) :
  (forall p, In p pizza_image_paths ->
             fs (path_join_src (lstrip_slash p)) = None) ->
  let out := review_pizza_images store fs pizza_image_paths chef_name tr in
  let known := map ReviewCategory.name (review_categories store) in
  snd out = tr
  /\ forall template system_prompt,
       read_text "src/prompts/pizza_review_system_prompt.txt" = Some template ->
       str_format template chef_name = inr system_prompt ->
       exists scores,
         fst out
         = inr {| ReviewData.review_summary :=
                    Some "No images supplied for review.";
                  ReviewData.scores := Some scores |}
         /\ (forall name, In name known -> dict_get name scores = Some 0)
         /\ (forall name, ~ In name known -> dict_get name scores = None).
Proof.
  intros Hnone out known.
  assert (Hparts : build_image_parts fs pizza_image_paths [] = [])
    by now apply build_image_parts_unreadable.
  subst out. unfold review_pizza_images, open_read, Eff.bind, Eff.lift_result.
  rewrite Hparts. split.
  - destruct (read_text _) as [template|]; [|reflexivity].
    simpl. now destruct (str_format template chef_name).
  - intros template system_prompt Hread Hformat.
    rewrite Hread. simpl. rewrite Hformat. simpl.
    eexists. split; [reflexivity|]. split.
    + intros name Hin. unfold dict_comp.
      apply (dict_get_fold_const (fun cat_name : string => cat_name)).
      now rewrite map_id.
    + intros name Hnin. apply dict_comp_unknown. now rewrite map_id.
Qed.

End Review.

Lemma review_without_images_witness :
  let fs := fun path =>
    if String.eqb path "src/static/images/pizzas/kept.jpg"
    then Some [Byte.x41] else None in
  let out := @Ai.review_pizza_images Stub.externals Stub.seeded fs
               ["/static/images/pizzas/gone.jpg"] "Mario" [] in
  snd out = []
  /\ exists scores,
       fst out = inr {| ReviewData.review_summary :=
                          Some "No images supplied for review.";
                        ReviewData.scores := Some scores |}
       /\ dict_get "Crust Quality" scores = Some 0
       /\ dict_get "Aroma" scores = None.
Proof.
  intros fs out.
  assert (Hgone : forall p, In p ["/static/images/pizzas/gone.jpg"] ->
                            fs (path_join_src (lstrip_slash p)) = None).
  { intros p [<-|[]]. reflexivity. }
  destruct (@review_without_images Stub.externals Stub.seeded fs
              ["/static/images/pizzas/gone.jpg"] "Mario" [] Hgone)
    as [Htrace Hresult].
  split; [exact Htrace|].
  destruct (Hresult _ _ eq_refl eq_refl)
    as (scores & Hfst & Hknown & Hunknown).
  exists scores. split; [exact Hfst|]. split.
  - apply Hknown. simpl. auto.
  - apply Hunknown. simpl. intuition discriminate.
Defined.

(** ** The review persist path *)

Import App.

Lemma set_pizza_review_scores_same (db : Store) :
  set_pizza_review_scores db (pizza_review_scores db) = db.
Proof. now destruct db. Qed.

Lemma add_scores_run (rid : Z) (category_map : dict Z)
  (items : list (string * Z)) (s : Session.t) :
  scores_fit category_map items = true ->
  add_scores rid category_map items s
  = (inr tt,
     {| Session.committed := Session.committed s;
        Session.working :=
          set_pizza_review_scores (Session.working s)
            (pizza_review_scores (Session.working s)
             ++ new_score_rows rid category_map items
                  (pizza_review_scores (Session.working s)));
        Session.flush_error := Session.flush_error s |}).
Proof.
  revert s. induction items as [|[category_name score] rest IH];
    intros s Hfit.
  - simpl. rewrite app_nil_r, set_pizza_review_scores_same.
    now destruct s.
  - simpl in *. destruct (dict_get category_name category_map) as [cid|].
    + apply andb_true_iff in Hfit. destruct Hfit as [Hscore Hrest].
      unfold add_PizzaReviewScore. run_session. rewrite Hscore.
      rewrite (IH _ Hrest). simpl. now rewrite <- app_assoc.
    + now apply IH.
Qed.

(** Once a row could not be bound, the loop goes on and the error
    stays. *)
Lemma add_scores_keeps_error (rid : Z) (category_map : dict Z)
  (items : list (string * Z)) (s : Session.t) (e : exn) :
  Session.flush_error s = Some e ->
  exists working,
    add_scores rid category_map items s
    = (inr tt,
       {| Session.committed := Session.committed s;
          Session.working := working;
          Session.flush_error := Some e |}).
Proof.
  revert s. induction items as [|[category_name score] rest IH];
    intros s Herr.
  - exists (Session.working s). simpl. destruct s. simpl in *. now subst.
  - simpl. destruct (dict_get category_name category_map) as [cid|];
      [|now apply IH].
    unfold add_PizzaReviewScore. run_session.
    destruct (int64 score); cbn beta iota;
      match goal with
      | |- context [add_scores rid category_map rest ?s'] =>
          destruct (IH s') as (working & ->);
            [simpl; now rewrite ?Herr|now exists working]
      end.
Qed.

Lemma add_scores_overflow (rid : Z) (category_map : dict Z)
  (items : list (string * Z)) (s : Session.t) :
  scores_fit category_map items = false ->
  exists working e,
    add_scores rid category_map items s
    = (inr tt,
       {| Session.committed := Session.committed s;
          Session.working := working;
          Session.flush_error := Some e |}).
Proof.
  revert s. induction items as [|[category_name score] rest IH];
    intros s Hbig; [discriminate|].
  simpl in *. destruct (dict_get category_name category_map) as [cid|];
    [|now apply IH].
  unfold add_PizzaReviewScore. run_session.
  destruct (int64 score) eqn:Hscore; cbn beta iota.
  - simpl in Hbig.
    match goal with
    | |- context [add_scores rid category_map rest ?s'] =>
        destruct (IH s' Hbig) as (working & e & ->)
    end.
    now exists working, e.
  - match goal with
    | |- context [add_scores rid category_map rest ?s'] =>
        destruct (add_scores_keeps_error rid category_map rest s'
                    (match Session.flush_error s with
                     | Some e => e
                     | None => int_too_large
                     end)) as (working & ->)
    end.
    + simpl. now destruct (Session.flush_error s).
    + now eexists _, _.
Qed.

(** What [save_review] leaves in the store, by what it is given: a
    [pizza_id] that cannot be bound leaves nothing; a score that cannot
    be bound, or no scores at all, leaves the review without scores. *)
Lemma save_review_run (pizza_id : Z) (summary : string)
  (scores : option (dict Z)) (db : Store) :
  let review := new_review pizza_id summary db in
  let db1 := set_pizza_review db (pizza_review db ++ [review]) in
  save_review pizza_id
    {| ReviewData.review_summary := Some summary;
       ReviewData.scores := scores |} db
  = (inr tt,
     if int64 pizza_id
     then
       match scores with
       | None => db1
       | Some items =>
           if scores_fit (category_map_of db) items
           then
             set_pizza_review_scores db1
               (pizza_review_scores db
                ++ new_score_rows (PizzaReview.id review)
                     (category_map_of db) items (pizza_review_scores db))
           else db1
       end
     else db).
Proof.
  intros review db1.
  pose proof (find_app_fresh PizzaReview.id (pizza_review db) review
                (next_id_fresh _)) as Hfind.
  subst db1 review. unfold new_review in *. simpl in Hfind.
  unfold save_review, getitem, add_PizzaReview, refresh.
  run_session.
  destruct (int64 pizza_id); [|reflexivity].
  simpl. rewrite Hfind.
  destruct scores as [items|]; [|reflexivity].
  cbn beta iota. fold (category_map_of db).
  destruct (scores_fit (category_map_of db) items) eqn:Hfit.
  - rewrite (add_scores_run _ _ _ _ Hfit). reflexivity.
  - match goal with
    | |- context [add_scores ?rid ?cmap items ?s'] =>
        destruct (add_scores_overflow rid cmap items s' Hfit)
          as (working & e & ->)
    end.
    reflexivity.
Qed.

Lemma save_review_missing_summary (pizza_id : Z) (scores : option (dict Z))
  (db : Store) :
  save_review pizza_id
    {| ReviewData.review_summary := None; ReviewData.scores := scores |} db
  = (inr tt, db).
Proof. reflexivity. Qed.

Lemma process_pizza_review_background_db `{Externals} (pizza_id : Z)
  (image_paths : list string) (chef_name : string) (w : World) :
  db (process_pizza_review_background pizza_id image_paths chef_name w)
  = match fst (Ai.review_pizza_images (db w) (fs_of w) image_paths
                 chef_name (events w)) with
    | inr review_data => snd (save_review pizza_id review_data (db w))
    | inl _ => db w
    end.
Proof.
  unfold process_pizza_review_background.
  destruct (Ai.review_pizza_images _ _ _ _ _) as [[e|review_data] tr];
    [reflexivity|].
  simpl. now destruct (save_review pizza_id review_data (db w)).
Qed.

(** C1, the failing input: the pizza of [Stub.submitted] is reviewed and
    the provider's answer has a summary but no scores.  The review row
    is committed before the scores are read, the [KeyError] is caught,
    [rollback] has nothing left to undo, and the store keeps a review
    that has no score rows. *)
Theorem review_without_scores_is_kept :
  let w := @process_pizza_review_background Stub.scoreless 1
             ["/static/images/pizzas/pizza_1_1_0a1b2c3d.jpg"] "Mario"
             Stub.submitted in
  pizza_review (db Stub.submitted) = []
  /\ pizza_review (db w)
     = [{| PizzaReview.id := 1; PizzaReview.pizza_id := 1;
           PizzaReview.review_summary := "Good" |}]
  /\ pizza_review_scores (db w) = [].
Proof. repeat split; reflexivity. Qed.

(** The same for every store: a missing ["scores"] key leaves the new
    review row and nothing else. *)
Lemma save_review_missing_scores (pizza_id : Z) (summary : string)
  (db : Store) :
  int64 pizza_id = true ->
  save_review pizza_id
    {| ReviewData.review_summary := Some summary;
       ReviewData.scores := None |} db
  = (inr tt,
     set_pizza_review db
       (pizza_review db ++ [new_review pizza_id summary db])).
Proof.
  intros Hfit. rewrite (save_review_run pizza_id summary None db).
  now rewrite Hfit.
Qed.

(** *** The rows of [new_score_rows] *)

Lemma new_score_rows_review (rid : Z) (cmap : dict Z)
  (items : list (string * Z)) (rows : list PizzaReviewScore.t)
  (row : PizzaReviewScore.t) :
  In row (new_score_rows rid cmap items rows) ->
  PizzaReviewScore.pizza_review_id row = rid.
Proof.
  revert rows. induction items as [|[n sc] rest IH]; intros rows; simpl;
    [contradiction|].
  destruct (dict_get n cmap) as [cid|]; [|apply IH].
  intros [<-|Hin]; [reflexivity|exact (IH _ Hin)].
Qed.

Lemma new_score_rows_origin (rid : Z) (cmap : dict Z)
  (items : list (string * Z)) (rows : list PizzaReviewScore.t)
  (row : PizzaReviewScore.t) :
  In row (new_score_rows rid cmap items rows) ->
  exists n, In (n, PizzaReviewScore.score row) items
            /\ dict_get n cmap = Some (PizzaReviewScore.category_id row).
Proof.
  revert rows. induction items as [|[n sc] rest IH]; intros rows; simpl;
    [contradiction|].
  destruct (dict_get n cmap) as [cid|] eqn:Hget.
  - intros [<-|Hin].
    + exists n. simpl. auto.
    + destruct (IH _ Hin) as (n' & Hin' & Hget'). exists n'. auto.
  - intros Hin. destruct (IH _ Hin) as (n' & Hin' & Hget'). exists n'. auto.
Qed.

Lemma new_score_rows_present (rid : Z) (cmap : dict Z)
  (items : list (string * Z)) (rows : list PizzaReviewScore.t)
  (n : string) (sc cid : Z) :
  In (n, sc) items -> dict_get n cmap = Some cid ->
  exists row, In row (new_score_rows rid cmap items rows)
              /\ PizzaReviewScore.category_id row = cid
              /\ PizzaReviewScore.score row = sc.
Proof.
  revert rows. induction items as [|[n0 sc0] rest IH]; intros rows Hin Hget;
    simpl in *; [contradiction|].
  destruct Hin as [Heq|Hin].
  - inversion Heq; subst. rewrite Hget. eexists. split; [now left|]. auto.
  - destruct (IH (match dict_get n0 cmap with
                  | Some c =>
                      rows ++ [{| PizzaReviewScore.id :=
                                    next_id (map PizzaReviewScore.id rows);
                                  PizzaReviewScore.pizza_review_id := rid;
                                  PizzaReviewScore.category_id := c;
                                  PizzaReviewScore.score := sc0 |}]
                  | None => rows
                  end) Hin Hget) as (row & Hrow & Hc & Hs).
    exists row. destruct (dict_get n0 cmap); simpl; auto.
Qed.

Lemma filter_none {A} (f : A -> bool) (l : list A) :
  (forall x, In x l -> f x = false) -> filter f l = [].
Proof.
  induction l as [|x l IH]; intros Hall; simpl; [reflexivity|].
  rewrite (Hall x) by now left.
  apply IH. intros y Hy. apply Hall. now right.
Qed.

(** One item, one row: a name of the mapping whose category no other
    name of the mapping shares gets exactly one row. *)
Lemma new_score_rows_one (rid : Z) (cmap : dict Z)
  (items : list (string * Z)) (rows : list PizzaReviewScore.t)
  (n : string) (sc cid : Z) :
  NoDup (keys items) ->
  In (n, sc) items -> dict_get n cmap = Some cid ->
  (forall n', In n' (keys items) -> dict_get n' cmap = Some cid -> n' = n) ->
  exists row,
    filter (fun r => PizzaReviewScore.category_id r =? cid)
           (new_score_rows rid cmap items rows) = [row]
    /\ PizzaReviewScore.score row = sc.
Proof.
  revert rows. induction items as [|[n0 sc0] rest IH];
    intros rows Hnd Hin Hget Hinj; simpl in *; [contradiction|].
  inversion Hnd as [|? ? Hfresh Hnd']; subst.
  destruct Hin as [Heq|Hin].
  - inversion Heq; subst. rewrite Hget. simpl. rewrite Z.eqb_refl.
    eexists. split; [f_equal|reflexivity].
    apply filter_none. intros row Hrow.
    destruct (new_score_rows_origin _ _ _ _ _ Hrow) as (n' & Hin' & Hget').
    destruct (Z.eqb_spec (PizzaReviewScore.category_id row) cid)
      as [Hcid|]; [|reflexivity].
    exfalso. apply Hfresh. rewrite Hcid in Hget'.
    assert (n' = n) as <-.
    { apply Hinj; [right|exact Hget']. unfold keys.
      now apply (in_map fst) in Hin'. }
    now apply (in_map fst) in Hin'.
  - assert (Hne : n0 <> n).
    { intros ->. apply Hfresh. now apply (in_map fst) in Hin. }
    assert (Hinj' : forall n', In n' (keys rest) ->
                               dict_get n' cmap = Some cid -> n' = n).
    { intros n' Hn'. apply Hinj. now right. }
    destruct (dict_get n0 cmap) as [cid0|] eqn:Hget0.
    + simpl. destruct (Z.eqb_spec cid0 cid) as [->|Hcid].
      * exfalso. apply Hne. apply Hinj; [now left|exact Hget0].
      * now apply IH.
    + now apply IH.
Qed.

(** *** The category map *)

Lemma NoDup_map_inj_in {A B} (f : A -> B) (l : list A) (x y : A) :
  NoDup (map f l) -> In x l -> In y l -> f x = f y -> x = y.
Proof.
  induction l as [|a l IH]; simpl; intros Hnd Hx Hy Heq; [contradiction|].
  inversion Hnd as [|? ? Hfresh Hnd']; subst.
  destruct Hx as [->|Hx], Hy as [->|Hy]; auto.
  - exfalso. apply Hfresh. rewrite Heq. now apply in_map.
  - exfalso. apply Hfresh. rewrite <- Heq. now apply in_map.
Qed.

Lemma category_map_known (db : Store) (c : ReviewCategory.t) :
  NoDup (map ReviewCategory.name (review_categories db)) ->
  In c (review_categories db) ->
  dict_get (ReviewCategory.name c) (category_map_of db)
  = Some (ReviewCategory.id c).
Proof. apply dict_comp_known. Qed.

Lemma category_map_origin (db : Store) (n : string) (cid : Z) :
  NoDup (map ReviewCategory.name (review_categories db)) ->
  dict_get n (category_map_of db) = Some cid ->
  exists c, In c (review_categories db)
            /\ ReviewCategory.name c = n /\ ReviewCategory.id c = cid.
Proof.
  intros Hnd Hget.
  destruct (in_dec string_dec n
              (map ReviewCategory.name (review_categories db))) as [Hin|Hnin].
  - apply in_map_iff in Hin. destruct Hin as (c & <- & Hc).
    exists c. rewrite (category_map_known db c Hnd Hc) in Hget.
    inversion Hget. auto.
  - unfold category_map_of in Hget.
    rewrite dict_comp_unknown in Hget by exact Hnin. discriminate.
Qed.

Lemma category_map_some (db : Store) (n : string) :
  In n (map ReviewCategory.name (review_categories db)) ->
  exists c, In c (review_categories db) /\ ReviewCategory.name c = n
            /\ dict_get n (category_map_of db) = Some (ReviewCategory.id c).
Proof.
  unfold category_map_of, dict_comp.
  generalize (@nil (string * Z)) as d.
  induction (review_categories db) as [|y cats IH]; intros d Hin; simpl in *;
    [contradiction|].
  destruct (in_dec string_dec n (map ReviewCategory.name cats)) as [Hin'|Hnin].
  - destruct (IH (dict_set (ReviewCategory.name y) (ReviewCategory.id y) d)
                 Hin') as (c & Hc & Hname & Hget).
    exists c. auto.
  - destruct Hin as [Hname|Hin]; [|contradiction].
    exists y. split; [now left|]. split; [exact Hname|].
    rewrite dict_get_fold_other by exact Hnin.
    subst n. apply dict_get_set_eq.
Qed.

(** The scores of known categories are the ones the loop stores. *)
Lemma scores_fit_known (db : Store) (items : list (string * Z)) :
  (forall n sc,
     In (n, sc) items ->
     In n (map ReviewCategory.name (review_categories db)) ->
     int64 sc = true) ->
  scores_fit (category_map_of db) items = true.
Proof.
  intros Hfit. apply forallb_forall. intros [n sc] Hin. simpl.
  destruct (dict_get n (category_map_of db)) as [cid|] eqn:Hget;
    [|reflexivity].
  apply (Hfit n sc Hin).
  destruct (in_dec string_dec n
              (map ReviewCategory.name (review_categories db)))
    as [Hknown|Hunknown]; [exact Hknown|].
  unfold category_map_of in Hget.
  rewrite dict_comp_unknown in Hget by exact Hunknown. discriminate.
Qed.

Lemma save_review_fits (pizza_id : Z) (summary : string) (scores : dict Z)
  (db : Store) :
  int64 pizza_id = true ->
  (forall n sc,
     In (n, sc) scores ->
     In n (map ReviewCategory.name (review_categories db)) ->
     int64 sc = true) ->
  let review := new_review pizza_id summary db in
  save_review pizza_id
    {| ReviewData.review_summary := Some summary;
       ReviewData.scores := Some scores |} db
  = (inr tt,
     set_pizza_review_scores
       (set_pizza_review db (pizza_review db ++ [review]))
       (pizza_review_scores db
        ++ new_score_rows (PizzaReview.id review) (category_map_of db)
             scores (pizza_review_scores db))).
Proof.
  intros Hpizza Hscores review.
  rewrite (save_review_run pizza_id summary (Some scores) db).
  now rewrite Hpizza, (scores_fit_known db scores Hscores).
Qed.

(** C7: a review is saved for a [pizza_id] that fits in 64 bits, with a
    summary and a score mapping in which the scores of known categories
    fit in 64 bits.  Nothing fails; the review table grows by the new
    review (whose key is one more than the largest in use, in a table
    that has room for it) and the score table by rows that all belong to
    it; every name of the mapping that is the name of a known category
    gets exactly one of these rows (with the score given), and every row
    comes from such a name: a name that is no category's name leaves no
    row. *)
Theorem one_score_row_per_known_category (store : Store) (pizza_id : Z)
  (summary : string) (scores : dict Z) :
  int64 pizza_id = true ->
  (forall n sc,
     In (n, sc) scores ->
     In n (map ReviewCategory.name (review_categories store)) ->
     int64 sc = true) ->
  has_room (map PizzaReview.id (pizza_review store)) = true ->
  NoDup (keys scores) ->
  NoDup (map ReviewCategory.name (review_categories store)) ->
  NoDup (map ReviewCategory.id (review_categories store)) ->
  let review := new_review pizza_id summary store in
  let out := save_review pizza_id
               {| ReviewData.review_summary := Some summary;
                  ReviewData.scores := Some scores |} store in
  exists new_rows,
    fst out = inr tt
    /\ pizza_review (snd out) = pizza_review store ++ [review]
    /\ pizza_review_scores (snd out) = pizza_review_scores store ++ new_rows
    /\ (forall row, In row new_rows ->
          PizzaReviewScore.pizza_review_id row = PizzaReview.id review)
    /\ (forall n sc c,
          In (n, sc) scores -> In c (review_categories store) ->
          ReviewCategory.name c = n ->
          exists row,
            filter (fun r => PizzaReviewScore.category_id r
                             =? ReviewCategory.id c) new_rows = [row]
            /\ PizzaReviewScore.score row = sc)
    /\ (forall row, In row new_rows ->
          exists c, In c (review_categories store)
                    /\ PizzaReviewScore.category_id row = ReviewCategory.id c
                    /\ In (ReviewCategory.name c, PizzaReviewScore.score row)
                          scores).
Proof.
  intros Hpizza Hscores _ Hkeys Hnames Hids review out.
  exists (new_score_rows (PizzaReview.id review) (category_map_of store)
            scores (pizza_review_scores store)).
  subst out.
  rewrite (save_review_fits pizza_id summary scores store Hpizza Hscores).
  split; [reflexivity|]. split; [reflexivity|]. split; [reflexivity|].
  split; [intros row Hrow; exact (new_score_rows_review _ _ _ _ _ Hrow)|].
  split.
  - intros n sc c Hin Hc Hname.
    apply (new_score_rows_one _ _ _ _ n); trivial.
    + subst n. now apply category_map_known.
    + intros n' _ Hget'.
      destruct (category_map_origin store n' _ Hnames Hget')
        as (c' & Hc' & Hname' & Hid').
      rewrite (NoDup_map_inj_in ReviewCategory.id _ c' c Hids Hc' Hc Hid')
        in Hname'.
      congruence.
  - intros row Hrow.
    destruct (new_score_rows_origin _ _ _ _ _ Hrow) as (n & Hin & Hget).
    destruct (category_map_origin store n _ Hnames Hget)
      as (c & Hc & Hname & Hid).
    exists c. subst n. auto.
Qed.

Lemma one_score_row_per_known_category_witness :
  let store := db Stub.submitted in
  let scores := [("Shape", 4); ("Aroma", 2 ^ 64)] in
  let out := save_review 1
               {| ReviewData.review_summary := Some "Good";
                  ReviewData.scores := Some scores |} store in
  exists new_rows,
    fst out = inr tt
    /\ pizza_review (snd out)
       = pizza_review store ++ [new_review 1 "Good" store]
    /\ pizza_review_scores (snd out) = pizza_review_scores store ++ new_rows
    /\ exists row,
         filter (fun r => PizzaReviewScore.category_id r =? 1) new_rows
         = [row]
         /\ PizzaReviewScore.score row = 4.
Proof.
  intros store scores out.
  destruct (one_score_row_per_known_category store 1 "Good" scores)
    as (new_rows & Hsave & Hreviews & Hrows & Hreview & Hone & Hfrom).
  - reflexivity.
  - intros n sc [Heq|[Heq|[]]] Hknown; inversion Heq; subst;
      [reflexivity|].
    exfalso. simpl in Hknown. intuition discriminate.
  - reflexivity.
  - repeat constructor; simpl; intuition discriminate.
  - repeat constructor; simpl; intuition discriminate.
  - repeat constructor; simpl; intuition discriminate.
  - exists new_rows. split; [exact Hsave|]. split; [exact Hreviews|].
    split; [exact Hrows|].
    apply (Hone "Shape" 4
             {| ReviewCategory.id := 1; ReviewCategory.name := "Shape" |}).
    + now left.
    + now left.
    + reflexivity.
Defined.




(** ** Writing a review and reading it back *)

Lemma filter_all {A} (f : A -> bool) (l : list A) :
  (forall x, In x l -> f x = true) -> filter f l = l.
Proof.
  induction l as [|x l IH]; intros Hall; simpl; [reflexivity|].
  rewrite (Hall x) by now left.
  f_equal. apply IH. intros y Hy. apply Hall. now right.
Qed.

Lemma find_by_key {A} (key : A -> Z) (rows : list A) (x : A) :
  NoDup (map key rows) -> In x rows ->
  find (fun r => key r =? key x) rows = Some x.
Proof.
  intros Hnd Hin.
  destruct (find (fun r => key r =? key x) rows) as [y|] eqn:Hfind.
  - apply find_some in Hfind. destruct Hfind as [Hy Hkey].
    apply Z.eqb_eq in Hkey.
    now rewrite (NoDup_map_inj_in key rows y x Hnd Hy Hin Hkey).
  - exfalso. apply (find_none _ _ Hfind x) in Hin.
    now rewrite Z.eqb_refl in Hin.
Qed.

Lemma dict_items_functional {V} (d : dict V) (k : string) (v1 v2 : V) :
  NoDup (keys d) -> In (k, v1) d -> In (k, v2) d -> v1 = v2.
Proof.
  induction d as [|[k0 v0] d IH]; simpl; intros Hnd H1 H2; [contradiction|].
  inversion Hnd as [|? ? Hfresh Hnd']; subst.
  destruct H1 as [E1|H1], H2 as [E2|H2].
  - congruence.
  - inversion E1; subst. exfalso. apply Hfresh.
    now apply (in_map fst) in H2.
  - inversion E2; subst. exfalso. apply Hfresh.
    now apply (in_map fst) in H1.
  - now apply IH.
Qed.

Lemma new_score_rows_length (rid : Z) (cmap : dict Z)
  (items : list (string * Z)) (rows : list PizzaReviewScore.t) :
  (forall n, In n (keys items) -> dict_get n cmap <> None) ->
  length (new_score_rows rid cmap items rows) = length items.
Proof.
  revert rows. induction items as [|[n sc] rest IH]; intros rows Hknown;
    simpl in *; [reflexivity|].
  destruct (dict_get n cmap) as [cid|] eqn:Hget.
  - simpl. f_equal. apply IH. intros n' Hn'. apply Hknown. now right.
  - exfalso. apply (Hknown n); [now left|exact Hget].
Qed.

Section RoundTrip.
Context `{Sqlite}.

(** What the read path finds once [save_review] has run on a pizza that
    had no review. *)
Lemma read_back_review (store : Store) (pizza_id : Z) (summary : string)
  (scores : dict Z) (pizza : Pizza.t) :
  int64 pizza_id = true ->
  (forall n sc, In (n, sc) scores -> int64 sc = true) ->
  find (fun p => Pizza.id p =? pizza_id) (pizzas store) = Some pizza ->
  (forall r, In r (pizza_review store) ->
             PizzaReview.pizza_id r <> pizza_id) ->
  (forall s, In s (pizza_review_scores store) ->
             In (PizzaReviewScore.pizza_review_id s)
                (map PizzaReview.id (pizza_review store))) ->
  let review := new_review pizza_id summary store in
  let store' :=
    snd (save_review pizza_id
           {| ReviewData.review_summary := Some summary;
              ReviewData.scores := Some scores |} store) in
  DatabaseManager.get_pizza_with_images store' pizza_id
  = inr (Some
      {| pv_pizza := pizza;
         pv_chef := find (fun c => Chef.id c =? Pizza.chef_id pizza)
                         (chefs store);
         pv_images := load_images store pizza;
         pv_review :=
           Some {| rv_review := review;
                   rv_scores :=
                     map (load_score store)
                         (new_score_rows (PizzaReview.id review)
                            (category_map_of store) scores
                            (pizza_review_scores store)) |} |}).
Proof.
  intros Hfit Hscores Hpizza Hfirst Hrefs review store'.
  subst store'.
  rewrite (save_review_fits pizza_id summary scores store Hfit)
    by (intros n sc Hin _; exact (Hscores n sc Hin)).
  simpl. fold review.
  unfold DatabaseManager.get_pizza_with_images, DatabaseManager.bound.
  rewrite Hfit. simpl. rewrite Hpizza.
  simpl. unfold load_pizza. simpl. f_equal. f_equal. f_equal.
  assert (Hid : Pizza.id pizza = pizza_id).
  { apply find_some in Hpizza. now apply Z.eqb_eq. }
  rewrite Hid, filter_app.
  rewrite (filter_none _ (pizza_review store)).
  2:{ intros r Hr. apply Z.eqb_neq. now apply Hfirst. }
  simpl. rewrite Z.eqb_refl. simpl.
  unfold load_review. simpl.
  f_equal. f_equal. rewrite filter_app.
  rewrite (filter_none _ (pizza_review_scores store)).
  2:{ intros s Hs. apply Z.eqb_neq. intros Heq.
      apply Hrefs in Hs. rewrite Heq in Hs.
      now apply next_id_fresh in Hs. }
  simpl. rewrite filter_all.
  2:{ intros row Hrow. apply Z.eqb_eq.
      now apply new_score_rows_review in Hrow. }
  reflexivity.
Qed.

(** C9: a pizza that exists and has no review is reviewed with a
    summary and a score mapping over known category names, the key of
    the pizza and the scores fitting in 64 bits; read back with
    [get_pizza_with_images], the pizza carries a review with that
    summary, one loaded score per name of the mapping, and for every
    name of the mapping a loaded score of that category name with the
    score written, and no loaded score of that name with another
    score. *)
Theorem review_round_trip (store : Store) (pizza_id : Z) (summary : string)
  (scores : dict Z) (pizza : Pizza.t) :
  int64 pizza_id = true ->
  (forall n sc, In (n, sc) scores -> int64 sc = true) ->
  NoDup (keys scores) ->
  (forall n, In n (keys scores) ->
             In n (map ReviewCategory.name (review_categories store))) ->
  NoDup (map ReviewCategory.name (review_categories store)) ->
  NoDup (map ReviewCategory.id (review_categories store)) ->
  find (fun p => Pizza.id p =? pizza_id) (pizzas store) = Some pizza ->
  (forall r, In r (pizza_review store) ->
             PizzaReview.pizza_id r <> pizza_id) ->
  (forall s, In s (pizza_review_scores store) ->
             In (PizzaReviewScore.pizza_review_id s)
                (map PizzaReview.id (pizza_review store))) ->
  let store' :=
    snd (save_review pizza_id
           {| ReviewData.review_summary := Some summary;
              ReviewData.scores := Some scores |} store) in
  exists pv rv,
    DatabaseManager.get_pizza_with_images store' pizza_id = inr (Some pv)
    /\ pv_review pv = Some rv
    /\ PizzaReview.review_summary (rv_review rv) = summary
    /\ length (rv_scores rv) = length scores
    /\ forall n sc, In (n, sc) scores ->
         (exists sv, In sv (rv_scores rv)
                     /\ option_map ReviewCategory.name (sv_category sv)
                        = Some n
                     /\ PizzaReviewScore.score (sv_score sv) = sc)
         /\ (forall sv, In sv (rv_scores rv) ->
               option_map ReviewCategory.name (sv_category sv) = Some n ->
               PizzaReviewScore.score (sv_score sv) = sc).
Proof.
  intros Hfit Hscores Hkeys Hknown Hnames Hids Hpizza Hfirst Hrefs store'.
  pose proof (read_back_review store pizza_id summary scores pizza
                Hfit Hscores Hpizza Hfirst Hrefs) as Hread.
  cbv zeta in Hread. fold store' in Hread.
  eexists _, _. split; [exact Hread|].
  split; [reflexivity|]. split; [reflexivity|].
  cbn [rv_scores]. split.
  - rewrite length_map. apply new_score_rows_length.
    intros n Hn. apply Hknown in Hn.
    destruct (category_map_some store n Hn) as (c & _ & _ & Hget).
    now rewrite Hget.
  - intros n sc Hin.
    assert (Hn : In n (map ReviewCategory.name (review_categories store))).
    { apply Hknown. now apply (in_map fst) in Hin. }
    apply in_map_iff in Hn. destruct Hn as (c & Hname & Hc).
    split.
    + destruct (new_score_rows_present
                  (PizzaReview.id (new_review pizza_id summary store))
                  (category_map_of store) scores (pizza_review_scores store)
                  n sc (ReviewCategory.id c) Hin) as (row & Hrow & Hcid & Hsc).
      { subst n. now apply category_map_known. }
      exists (load_score store row). split; [now apply in_map|].
      unfold load_score. simpl. rewrite Hcid.
      rewrite (find_by_key ReviewCategory.id _ c Hids Hc). simpl.
      split; [now f_equal|exact Hsc].
    + intros sv Hsv Hcat.
      apply in_map_iff in Hsv. destruct Hsv as (row & <- & Hrow).
      unfold load_score in Hcat. simpl in *.
      destruct (find _ (review_categories store)) as [c'|] eqn:Hfind;
        [|discriminate].
      simpl in Hcat. inversion Hcat as [Hname'].
      apply find_some in Hfind. destruct Hfind as [Hc' Hid'].
      apply Z.eqb_eq in Hid'.
      destruct (new_score_rows_origin _ _ _ _ _ Hrow) as (n2 & Hin2 & Hget2).
      destruct (category_map_origin store n2 _ Hnames Hget2)
        as (c2 & Hc2 & Hname2 & Hid2).
      assert (c2 = c') as ->.
      { apply (NoDup_map_inj_in ReviewCategory.id _ c2 c' Hids Hc2 Hc').
        congruence. }
      assert (n2 = n) as -> by congruence.
      exact (dict_items_functional scores n _ sc Hkeys Hin2 Hin).
Qed.

End RoundTrip.

Lemma review_round_trip_witness :
  let store := db Stub.submitted in
  let store' :=
    snd (save_review 1
           {| ReviewData.review_summary := Some "Good";
              ReviewData.scores := Some [("Shape", 5); ("Overall", 3)] |}
           store) in
  exists pv rv,
    @DatabaseManager.get_pizza_with_images Stub.sqlite store' 1
    = inr (Some pv)
    /\ pv_review pv = Some rv
    /\ PizzaReview.review_summary (rv_review rv) = "Good"
    /\ length (rv_scores rv) = 2%nat
    /\ exists sv, In sv (rv_scores rv)
                  /\ option_map ReviewCategory.name (sv_category sv)
                     = Some "Overall"
                  /\ PizzaReviewScore.score (sv_score sv) = 3.
Proof.
  intros store store'.
  destruct (@review_round_trip Stub.sqlite store 1 "Good"
              [("Shape", 5); ("Overall", 3)]
              {| Pizza.id := 1; Pizza.chef_id := 1 |})
    as (pv & rv & Hread & Hreview & Hsummary & Hlen & Hscores).
  - reflexivity.
  - intros n sc [Heq|[Heq|[]]]; inversion Heq; reflexivity.
  - repeat constructor; simpl; intuition discriminate.
  - simpl. intuition auto 10.
  - repeat constructor; simpl; intuition discriminate.
  - repeat constructor; simpl; intuition discriminate.
  - reflexivity.
  - intros r [].
  - intros s [].
  - exists pv, rv. repeat split; trivial.
    destruct (Hscores "Overall" 3) as [Hex _]; [right; now left|exact Hex].
Defined.

(** ** The leaderboard *)

Lemma firstn_In {A} (n : nat) (l : list A) (x : A) :
  In x (firstn n l) -> In x l.
Proof.
  revert l. induction n as [|n IH]; intros [|y l]; simpl; try contradiction.
  intros [->|Hin]; [now left|right; now apply IH].
Qed.


Lemma pizzas_with_scores_In (db : Store) (rows : list (Z * Q))
  (p : Pizza.t) (q : Q) :
  In (p, q) (pizzas_with_scores db rows) ->
  In (Pizza.id p, q) rows /\ In p (pizzas db).
Proof.
  induction rows as [|[pid a] rows IH]; simpl; [contradiction|].
  destruct (find _ (pizzas db)) as [pizza|] eqn:Hfind.
  - intros [Heq|Hin].
    + inversion Heq; subst. apply find_some in Hfind.
      destruct Hfind as [Hp Hid]. apply Z.eqb_eq in Hid. subst. auto.
    + destruct (IH Hin). auto.
  - intros Hin. destruct (IH Hin). auto.
Qed.





(** [avg()] returns a double, not the arithmetic mean: of the scores 1,
    2 and 2 it is 1.6666666666666667. *)
Lemma avg_is_a_double `{Sqlite} :
  let scores : list Z := [1; 2; 2] in
  avg scores = 7505999378950827 # 4503599627370496
  /\ ~ (avg scores == 5 # 3)%Q.
Proof.
  intros scores.
  assert (Havg : avg scores = 7505999378950827 # 4503599627370496)
    by (vm_compute; reflexivity).
  split; [exact Havg|]. rewrite Havg. intros Heq. discriminate Heq.
Qed.

Section Leaderboard.
Context `{Sqlite}.



Lemma insert_desc_In (x y : Z * Q) (l : list (Z * Q)) :
  In y (insert_desc x l) <-> y = x \/ In y l.
Proof.
  induction l as [|z l IH]; simpl.
  - intuition congruence.
  - destruct (goes_before x z); simpl; rewrite ?IH;
      intuition congruence.
Qed.

Lemma insert_desc_length (x : Z * Q) (l : list (Z * Q)) :
  length (insert_desc x l) = S (length l).
Proof.
  induction l as [|z l IH]; simpl; [reflexivity|].
  destruct (goes_before x z); simpl; [reflexivity|now rewrite IH].
Qed.



Lemma order_by_avg_desc_In (y : Z * Q) (l : list (Z * Q)) :
  In y (order_by_avg_desc l) <-> In y l.
Proof.
  induction l as [|x l IH]; simpl; [reflexivity|].
  rewrite insert_desc_In, IH. intuition congruence.
Qed.

Lemma group_by_pizza_In (db : Store) (ps : list Pizza.t) (pid : Z) (q : Q) :
  In (pid, q) (group_by_pizza db ps) ->
  exists p, In p ps /\ Pizza.id p = pid
            /\ joined_scores db p <> [] /\ q = avg (joined_scores db p).
Proof.
  induction ps as [|p ps IH]; simpl; [contradiction|].
  destruct (joined_scores db p) as [|sc scs] eqn:Hj.
  - intros Hin. destruct (IH Hin) as (p' & Hp' & Hrest). exists p'. auto.
  - intros [Heq|Hin].
    + inversion Heq; subst. exists p. rewrite Hj.
      repeat split; auto. discriminate.
    + destruct (IH Hin) as (p' & Hp' & Hrest). exists p'. auto.
Qed.


End Leaderboard.



(** ** Deleting a chef *)

Section CascadeFacts.
Import Cascade.

Lemma mem_In (x : Z) (xs : list Z) : mem x xs = true <-> In x xs.
Proof.
  unfold mem. rewrite existsb_exists. split.
  - intros (y & Hy & Heq). apply Z.eqb_eq in Heq. now subst.
  - intros Hin. exists x. split; [exact Hin|apply Z.eqb_refl].
Qed.

Lemma not_mem_In (x : Z) (xs : list Z) :
  negb (mem x xs) = true <-> ~ In x xs.
Proof.
  rewrite negb_true_iff, <- not_true_iff_false. now rewrite mem_In.
Qed.

Lemma neq_key (x y : Z) : negb (x =? y) = true <-> x <> y.
Proof. rewrite negb_true_iff. apply Z.eqb_neq. Qed.

Lemma owned_pizzas_In (chef_id : Z) (db : Store) (pid : Z) :
  In pid (owned_pizzas chef_id db)
  <-> exists p, In p (pizzas db) /\ Pizza.chef_id p = chef_id
                /\ Pizza.id p = pid.
Proof.
  unfold owned_pizzas. rewrite in_map_iff. split.
  - intros (p & Hid & Hp). apply filter_In in Hp. destruct Hp as [Hp Hc].
    apply Z.eqb_eq in Hc. exists p. auto.
  - intros (p & Hp & Hc & Hid). exists p. split; [exact Hid|].
    apply filter_In. split; [exact Hp|now apply Z.eqb_eq].
Qed.

Lemma owned_reviews_In (chef_id : Z) (db : Store) (rid : Z) :
  In rid (owned_reviews chef_id db)
  <-> exists r, In r (pizza_review db)
                /\ In (PizzaReview.pizza_id r) (owned_pizzas chef_id db)
                /\ PizzaReview.id r = rid.
Proof.
  unfold owned_reviews. rewrite in_map_iff. split.
  - intros (r & Hid & Hr). apply filter_In in Hr. destruct Hr as [Hr Hm].
    apply mem_In in Hm. exists r. auto.
  - intros (r & Hr & Hm & Hid). exists r. split; [exact Hid|].
    apply filter_In. split; [exact Hr|now apply mem_In].
Qed.

(** What is left in each table. *)
Lemma delete_chef_tables (chef_id : Z) (db : Store) :
  let db' := delete_chef chef_id db in
  (forall c, In c (chefs db') <-> In c (chefs db) /\ Chef.id c <> chef_id)
  /\ (forall p, In p (pizzas db')
                <-> In p (pizzas db) /\ Pizza.chef_id p <> chef_id)
  /\ (forall i, In i (pizza_images db')
                <-> In i (pizza_images db)
                    /\ ~ In (PizzaImage.pizza_id i) (owned_pizzas chef_id db))
  /\ review_categories db' = review_categories db
  /\ (forall r, In r (pizza_review db')
                <-> In r (pizza_review db)
                    /\ ~ In (PizzaReview.pizza_id r)
                            (owned_pizzas chef_id db))
  /\ (forall s, In s (pizza_review_scores db')
                <-> In s (pizza_review_scores db)
                    /\ ~ In (PizzaReviewScore.pizza_review_id s)
                            (owned_reviews chef_id db)).
Proof.
  unfold delete_chef. cbn [chefs pizzas pizza_images review_categories
                           pizza_review pizza_review_scores].
  split; [intros c; now rewrite filter_In, neq_key|].
  split; [intros p; now rewrite filter_In, neq_key|].
  split; [intros i; now rewrite filter_In, not_mem_In|].
  split; [reflexivity|].
  split; [intros r; now rewrite filter_In, not_mem_In|].
  intros s. now rewrite filter_In, not_mem_In.
Qed.

Lemma no_orphans_spec (db : Store) :
  no_orphans db = true <->
  (forall p, In p (pizzas db) ->
     exists c, In c (chefs db) /\ Chef.id c = Pizza.chef_id p)
  /\ (forall i, In i (pizza_images db) ->
        exists p, In p (pizzas db) /\ Pizza.id p = PizzaImage.pizza_id i)
  /\ (forall r, In r (pizza_review db) ->
        exists p, In p (pizzas db) /\ Pizza.id p = PizzaReview.pizza_id r)
  /\ (forall s, In s (pizza_review_scores db) ->
        exists r, In r (pizza_review db)
                  /\ PizzaReview.id r = PizzaReviewScore.pizza_review_id s).
Proof.
  unfold no_orphans. rewrite !andb_true_iff, !forallb_forall.
  assert (Hex : forall {A} (key : A -> Z) (k : Z) (l : list A),
            existsb (fun x => key x =? k) l = true
            <-> exists x, In x l /\ key x = k).
  { intros A key k l. rewrite existsb_exists.
    split; intros (x & Hx & Hk); exists x; split; auto;
      now apply Z.eqb_eq. }
  split.
  - intros [[[H1 H2] H3] H4]. repeat split; intros x Hx.
    + now apply (Hex _ Chef.id), H1.
    + now apply (Hex _ Pizza.id), H2.
    + now apply (Hex _ Pizza.id), H3.
    + now apply (Hex _ PizzaReview.id), H4.
  - intros (H1 & H2 & H3 & H4). repeat split; intros x Hx.
    + now apply (Hex _ Chef.id), H1.
    + now apply (Hex _ Pizza.id), H2.
    + now apply (Hex _ Pizza.id), H3.
    + now apply (Hex _ PizzaReview.id), H4.
Qed.

Lemma delete_chef_no_orphans (chef_id : Z) (db : Store) :
  no_orphans db = true -> no_orphans (delete_chef chef_id db) = true.
Proof.
  rewrite !no_orphans_spec. intros (H1 & H2 & H3 & H4).
  destruct (delete_chef_tables chef_id db) as (Tc & Tp & Ti & _ & Tr & Ts).
  cbv zeta in *. repeat split.
  - intros p Hp. apply Tp in Hp. destruct Hp as [Hp Hne].
    destruct (H1 p Hp) as (c & Hc & Hid). exists c. split; [|exact Hid].
    apply Tc. split; [exact Hc|congruence].
  - intros i Hi. apply Ti in Hi. destruct Hi as [Hi Hno].
    destruct (H2 i Hi) as (p & Hp & Hid). exists p. split; [|exact Hid].
    apply Tp. split; [exact Hp|]. intros Hc. apply Hno.
    apply owned_pizzas_In. exists p. auto.
  - intros r Hr. apply Tr in Hr. destruct Hr as [Hr Hno].
    destruct (H3 r Hr) as (p & Hp & Hid). exists p. split; [|exact Hid].
    apply Tp. split; [exact Hp|]. intros Hc. apply Hno.
    apply owned_pizzas_In. exists p. auto.
  - intros s Hs. apply Ts in Hs. destruct Hs as [Hs Hno].
    destruct (H4 s Hs) as (r & Hr & Hid). exists r. split; [|exact Hid].
    apply Tr. split; [exact Hr|]. intros Hc. apply Hno.
    apply owned_reviews_In. exists r. auto.
Qed.

Lemma delete_chef_without_pizzas (chef_id : Z) (db : Store) :
  owned_pizzas chef_id db = [] ->
  delete_chef chef_id db
  = set_chefs db (filter (fun c => negb (Chef.id c =? chef_id)) (chefs db)).
Proof.
  intros Hnone. unfold delete_chef, owned_reviews. rewrite Hnone. simpl.
  unfold set_chefs. f_equal.
  - apply filter_all. intros p Hp. apply neq_key. intros Hc.
    assert (Hin : In (Pizza.id p) (owned_pizzas chef_id db)).
    { apply owned_pizzas_In. exists p. auto. }
    now rewrite Hnone in Hin.
  - now apply filter_all.
  - now apply filter_all.
  - rewrite (filter_none _ (pizza_review db)) by reflexivity.
    now apply filter_all.
Qed.

(** C8: deleting a chef removes the chef's row, the pizzas of that chef,
    the images and the reviews of those pizzas and the scores of those
    reviews, and no other row; a store without orphans is left without
    orphans; and when the chef has no pizzas, only the chefs table
    changes. *)
Theorem delete_chef_cascades (chef_id : Z) (store : Store) :
  let store' := delete_chef chef_id store in
  let ps := owned_pizzas chef_id store in
  let rs := owned_reviews chef_id store in
  (forall c, In c (chefs store')
             <-> In c (chefs store) /\ Chef.id c <> chef_id)
  /\ (forall p, In p (pizzas store')
                <-> In p (pizzas store) /\ Pizza.chef_id p <> chef_id)
  /\ (forall i, In i (pizza_images store')
                <-> In i (pizza_images store)
                    /\ ~ In (PizzaImage.pizza_id i) ps)
  /\ (forall r, In r (pizza_review store')
                <-> In r (pizza_review store)
                    /\ ~ In (PizzaReview.pizza_id r) ps)
  /\ (forall s, In s (pizza_review_scores store')
                <-> In s (pizza_review_scores store)
                    /\ ~ In (PizzaReviewScore.pizza_review_id s) rs)
  /\ review_categories store' = review_categories store
  /\ (no_orphans store = true -> no_orphans store' = true)
  /\ (ps = [] ->
      pizzas store' = pizzas store
      /\ pizza_images store' = pizza_images store
      /\ pizza_review store' = pizza_review store
      /\ pizza_review_scores store' = pizza_review_scores store).
Proof.
  intros store' ps rs.
  destruct (delete_chef_tables chef_id store) as (Tc & Tp & Ti & Tg & Tr & Ts).
  repeat (split; [assumption|]).
  split; [apply delete_chef_no_orphans|].
  intros Hnone. subst store'.
  rewrite (delete_chef_without_pizzas chef_id store Hnone).
  repeat split.
Qed.

End CascadeFacts.

Lemma delete_chef_cascades_witness :
  (Cascade.no_orphans Stub.two_chefs = true
   /\ Cascade.no_orphans (Cascade.delete_chef 1 Stub.two_chefs) = true)
  /\ (Cascade.owned_pizzas 2 Stub.two_chefs = []
      /\ pizzas (Cascade.delete_chef 2 Stub.two_chefs)
         = pizzas Stub.two_chefs
      /\ pizza_images (Cascade.delete_chef 2 Stub.two_chefs)
         = pizza_images Stub.two_chefs
      /\ pizza_review (Cascade.delete_chef 2 Stub.two_chefs)
         = pizza_review Stub.two_chefs
      /\ pizza_review_scores (Cascade.delete_chef 2 Stub.two_chefs)
         = pizza_review_scores Stub.two_chefs).
Proof.
  split.
  - split; [reflexivity|].
    apply (delete_chef_cascades 1 Stub.two_chefs). reflexivity.
  - split; [reflexivity|].
    apply (delete_chef_cascades 2 Stub.two_chefs). reflexivity.
Defined.

(** ** What the review persist path preserves *)

Lemma save_review_cases (pizza_id : Z) (review_data : ReviewData.t)
  (store : Store) :
  let store' := snd (App.save_review pizza_id review_data store) in
  store' = store
  \/ exists summary,
       ReviewData.review_summary review_data = Some summary
       /\ pizza_review store'
          = pizza_review store ++ [App.new_review pizza_id summary store]
       /\ exists new_rows,
            pizza_review_scores store' = pizza_review_scores store ++ new_rows
            /\ (forall row, In row new_rows ->
                  PizzaReviewScore.pizza_review_id row
                  = PizzaReview.id (App.new_review pizza_id summary store))
            /\ chefs store' = chefs store
            /\ pizzas store' = pizzas store
            /\ pizza_images store' = pizza_images store
            /\ review_categories store' = review_categories store.
Proof.
  destruct review_data as [[summary|] scores]; [|now left].
  cbv zeta. rewrite (save_review_run pizza_id summary scores store).
  destruct (int64 pizza_id); [|now left].
  right. exists summary. split; [reflexivity|].
  assert (Hbare :
    let store1 := set_pizza_review store
                    (pizza_review store
                     ++ [App.new_review pizza_id summary store]) in
    pizza_review store1
    = pizza_review store ++ [App.new_review pizza_id summary store]
    /\ exists new_rows,
         pizza_review_scores store1 = pizza_review_scores store ++ new_rows
         /\ (forall row, In row new_rows ->
               PizzaReviewScore.pizza_review_id row
               = PizzaReview.id (App.new_review pizza_id summary store))
         /\ chefs store1 = chefs store
         /\ pizzas store1 = pizzas store
         /\ pizza_images store1 = pizza_images store
         /\ review_categories store1 = review_categories store).
  { simpl. split; [reflexivity|]. exists []. rewrite app_nil_r.
    split; [reflexivity|]. split; [intros row []|auto]. }
  destruct scores as [items|]; [|exact Hbare].
  destruct (App.scores_fit (App.category_map_of store) items);
    [|exact Hbare].
  simpl. split; [reflexivity|]. eexists. split; [reflexivity|].
  split; [|auto].
  intros row Hrow. exact (new_score_rows_review _ _ _ _ _ Hrow).
Qed.

(** Saving a review never touches the categories, whatever the data. *)
Lemma save_review_categories (pizza_id : Z) (review_data : ReviewData.t)
  (store : Store) :
  review_categories (snd (App.save_review pizza_id review_data store))
  = review_categories store.
Proof.
  destruct (save_review_cases pizza_id review_data store)
    as [->|(summary & _ & _ & rows & _ & _ & _ & _ & _ & Hcats)];
    [reflexivity|exact Hcats].
Qed.

(** Scores that all belong to reviews still do after a review is saved,
    whether the save ran to its end or stopped half-way. *)
Lemma save_review_scores_owned (pizza_id : Z) (review_data : ReviewData.t)
  (store : Store) :
  (forall s, In s (pizza_review_scores store) ->
             In (PizzaReviewScore.pizza_review_id s)
                (map PizzaReview.id (pizza_review store))) ->
  let store' := snd (App.save_review pizza_id review_data store) in
  forall s, In s (pizza_review_scores store') ->
            In (PizzaReviewScore.pizza_review_id s)
               (map PizzaReview.id (pizza_review store')).
Proof.
  intros Howned store'.
  destruct (save_review_cases pizza_id review_data store)
    as [Hsame|(summary & _ & Hreviews & rows & Hscores & Hnew & _)];
    fold store' in Hsame || fold store' in Hreviews, Hscores.
  - rewrite Hsame. exact Howned.
  - intros s Hs. rewrite Hreviews, map_app, in_app_iff.
    rewrite Hscores, in_app_iff in Hs. destruct Hs as [Hs|Hs].
    + left. now apply Howned.
    + right. left. symmetry. now apply Hnew.
Qed.

(** * Further properties *)

(** ** The store *)

Lemma add_pizza_image_run (pizza_id : Z) (image_path : string)
  (db : Store) :
  int64 pizza_id = true ->
  let image := {| PizzaImage.id :=
                    next_id (map PizzaImage.id (pizza_images db));
                  PizzaImage.pizza_id := pizza_id;
                  PizzaImage.image_path := image_path |} in
  DatabaseManager.add_pizza_image pizza_id image_path db
  = (inr image, set_pizza_images db (pizza_images db ++ [image])).
Proof.
  intros Hfit image.
  unfold DatabaseManager.add_pizza_image, add_PizzaImage, refresh.
  run_session. rewrite Hfit. simpl.
  pose proof (find_app_fresh PizzaImage.id (pizza_images db) image
                (next_id_fresh _)) as Hfind.
  simpl in Hfind. fold image. rewrite Hfind. reflexivity.
Qed.

Lemma add_pizza_image_overflow (pizza_id : Z) (image_path : string)
  (db : Store) :
  int64 pizza_id = false ->
  DatabaseManager.add_pizza_image pizza_id image_path db
  = (inl int_too_large, db).
Proof.
  intros Hbig. unfold DatabaseManager.add_pizza_image, add_PizzaImage.
  run_session. rewrite Hbig. reflexivity.
Qed.

Lemma seed_database_run (db : Store) :
  DatabaseManager.seed_database db
  = (inr tt,
     match review_categories db with
     | [] => set_review_categories db (review_categories Stub.seeded)
     | _ :: _ => db
     end).
Proof.
  destruct db as [cs ps imgs cats rs ss].
  destruct cats as [|c cats]; reflexivity.
Qed.

(** X1: seeding never fails and changes nothing but the categories
    table; it fills that table only when it is empty, with the six names
    in order under the keys 1 to 6; and seeding a second time changes
    nothing. *)
Theorem seed_database_idempotent (store : Store) :
  let once := DatabaseManager.seed_database store in
  fst once = inr tt
  /\ snd once = set_review_categories store (review_categories (snd once))
  /\ DatabaseManager.seed_database (snd once) = (inr tt, snd once)
  /\ (review_categories store <> [] -> snd once = store)
  /\ (review_categories store = [] ->
      map ReviewCategory.name (review_categories (snd once))
      = ["Shape"; "Crust Quality"; "Presentation"; "Bake Quality";
         "Flavor (estimated)"; "Overall"]
      /\ map ReviewCategory.id (review_categories (snd once))
         = [1; 2; 3; 4; 5; 6]).
Proof.
  intros once. subst once. rewrite seed_database_run.
  destruct store as [cs ps imgs cats rs ss]. simpl.
  destruct cats as [|c cats]; simpl.
  - repeat split; try reflexivity. intros Hne. now contradiction Hne.
  - repeat split; try reflexivity; discriminate.
Qed.

Lemma seed_database_idempotent_witness :
  (review_categories empty_store = []
   /\ map ReviewCategory.id
        (review_categories
           (snd (DatabaseManager.seed_database empty_store)))
      = [1; 2; 3; 4; 5; 6])
  /\ (review_categories Stub.seeded <> []
      /\ snd (DatabaseManager.seed_database Stub.seeded) = Stub.seeded).
Proof.
  split.
  - split; [reflexivity|].
    apply (seed_database_idempotent empty_store). reflexivity.
  - split; [discriminate|].
    apply (seed_database_idempotent Stub.seeded). discriminate.
Defined.

Lemma NoDup_snoc {A} (l : list A) (x : A) :
  NoDup l -> ~ In x l -> NoDup (l ++ [x]).
Proof.
  induction 1 as [|y l Hy Hnd IH]; intros Hx; simpl.
  - constructor; [intros []|constructor].
  - constructor.
    + rewrite in_app_iff. intros [Hin|[->|[]]]; [contradiction|].
      apply Hx. now left.
    + apply IH. intros Hin. apply Hx. now right.
Qed.

Lemma NoDup_keys_snoc {A} (key : A -> Z) (rows : list A) (obj : A) :
  NoDup (map key rows) -> key obj = next_id (map key rows) ->
  NoDup (map key (rows ++ [obj])).
Proof.
  intros Hnd Hkey. rewrite map_app. simpl. apply NoDup_snoc; [exact Hnd|].
  rewrite Hkey. apply next_id_fresh.
Qed.

Lemma new_score_rows_keys (rid : Z) (cmap : dict Z)
  (items : list (string * Z)) (rows : list PizzaReviewScore.t) :
  NoDup (map PizzaReviewScore.id rows) ->
  NoDup (map PizzaReviewScore.id
           (rows ++ App.new_score_rows rid cmap items rows)).
Proof.
  revert rows. induction items as [|[n sc] rest IH]; intros rows Hnd; simpl.
  - now rewrite app_nil_r.
  - destruct (dict_get n cmap) as [cid|]; [|now apply IH].
    change (rows ++ ?row :: ?tail) with (rows ++ [row] ++ tail).
    rewrite app_assoc. apply IH. now apply NoDup_keys_snoc.
Qed.

Lemma save_review_keys (pizza_id : Z) (review_data : ReviewData.t)
  (db : Store) :
  keys_unique db ->
  keys_unique (snd (App.save_review pizza_id review_data db)).
Proof.
  intros (Hc & Hp & Hi & Hg & Hr & Hs).
  destruct review_data as [[summary|] scores]; [|repeat split; assumption].
  rewrite (save_review_run pizza_id summary scores db).
  assert (Hr' : NoDup (map PizzaReview.id
                         (pizza_review db
                          ++ [App.new_review pizza_id summary db])))
    by now apply NoDup_keys_snoc.
  cbn [snd]. destruct (int64 pizza_id); [|repeat split; assumption].
  destruct scores as [items|]; [|repeat split; simpl; trivial].
  destruct (App.scores_fit _ items); repeat split; simpl; trivial.
  now apply new_score_rows_keys.
Qed.

(** X2: the writes of [DatabaseManager] and the review persist path
    keep the primary keys of every table distinct, whether they store
    their rows or fail. *)
Theorem store_writes_keep_keys_unique (store : Store) :
  keys_unique store ->
  (forall name image_path,
     keys_unique (snd (DatabaseManager.create_chef name image_path store)))
  /\ (forall chef_id,
        keys_unique (snd (DatabaseManager.create_pizza chef_id store)))
  /\ (forall pizza_id image_path,
        keys_unique
          (snd (DatabaseManager.add_pizza_image pizza_id image_path store)))
  /\ keys_unique (snd (DatabaseManager.seed_database store))
  /\ (forall pizza_id review_data,
        keys_unique (snd (App.save_review pizza_id review_data store))).
Proof.
  intros Hkeys. pose proof Hkeys as (Hc & Hp & Hi & Hg & Hr & Hs).
  split; [|split; [|split; [|split]]].
  - intros name image_path. rewrite create_chef_run.
    repeat split; simpl; trivial. now apply NoDup_keys_snoc.
  - intros chef_id. destruct (int64 chef_id) eqn:Hfit.
    + rewrite (create_pizza_run chef_id store Hfit).
      repeat split; simpl; trivial. now apply NoDup_keys_snoc.
    + now rewrite (create_pizza_overflow chef_id store Hfit).
  - intros pizza_id image_path. destruct (int64 pizza_id) eqn:Hfit.
    + rewrite (add_pizza_image_run pizza_id image_path store Hfit).
      repeat split; simpl; trivial. now apply NoDup_keys_snoc.
    + now rewrite (add_pizza_image_overflow pizza_id image_path store Hfit).
  - rewrite seed_database_run.
    destruct (review_categories store) as [|c cats] eqn:Hcats;
      [|exact Hkeys].
    repeat split; simpl; trivial.
    repeat constructor; simpl; intuition discriminate.
  - intros pizza_id review_data. now apply save_review_keys.
Qed.

Lemma store_writes_keep_keys_unique_witness :
  keys_unique Stub.two_chefs
  /\ keys_unique
       (snd (App.save_review 1
               {| ReviewData.review_summary := Some "Again";
                  ReviewData.scores := Some [("Shape", 2)] |}
               Stub.two_chefs)).
Proof.
  assert (Hkeys : keys_unique Stub.two_chefs).
  { repeat split; repeat constructor; simpl; intuition discriminate. }
  split; [exact Hkeys|].
  apply (store_writes_keep_keys_unique Stub.two_chefs Hkeys).
Defined.

Lemma find_app_other {A} (key : A -> Z) (rows : list A) (obj : A) (k : Z) :
  k <> key obj ->
  find (fun r => key r =? k) (rows ++ [obj])
  = find (fun r => key r =? k) rows.
Proof.
  intros Hne. induction rows as [|r rows IH]; simpl.
  - destruct (Z.eqb_spec (key obj) k); [congruence|reflexivity].
  - destruct (key r =? k); [reflexivity|exact IH].
Qed.

(** X3: a chef just created is found under its key, with the name and
    image path given; no chef was found under that key before, and
    every other key finds what it found before. *)
Theorem create_chef_then_get (name : string) (image_path : option string)
  (store : Store) :
  let out := DatabaseManager.create_chef name image_path store in
  exists chef,
    fst out = inr chef
    /\ Chef.name chef = name /\ Chef.image_path chef = image_path
    /\ (int64 (Chef.id chef) = true ->
        DatabaseManager.get_chef_by_id (snd out) (Chef.id chef)
        = inr (Some chef)
        /\ DatabaseManager.get_chef_by_id store (Chef.id chef) = inr None)
    /\ forall k, k <> Chef.id chef ->
         DatabaseManager.get_chef_by_id (snd out) k
         = DatabaseManager.get_chef_by_id store k.
Proof.
  intros out. subst out. rewrite create_chef_run. cbv zeta.
  set (chef := {| Chef.id := next_id (map Chef.id (chefs store));
                  Chef.name := name; Chef.image_path := image_path |}).
  exists chef. split; [reflexivity|].
  unfold DatabaseManager.get_chef_by_id, DatabaseManager.bound.
  cbn [fst snd chefs set_chefs].
  split; [reflexivity|]. split; [reflexivity|]. split.
  - intros Hfit. rewrite Hfit. split; f_equal.
    + exact (find_app_fresh Chef.id (chefs store) chef (next_id_fresh _)).
    + apply find_key_none, next_id_fresh.
  - intros k Hk. destruct (int64 k); [|reflexivity]. f_equal.
    exact (find_app_other Chef.id (chefs store) chef k Hk).
Qed.

Lemma create_chef_then_get_witness :
  exists chef,
    fst (DatabaseManager.create_chef "Luigi" None (App.db Stub.reviewed))
    = inr chef
    /\ int64 (Chef.id chef) = true
    /\ DatabaseManager.get_chef_by_id Stub.two_chefs (Chef.id chef)
       = inr (Some chef)
    /\ DatabaseManager.get_chef_by_id (App.db Stub.reviewed) (Chef.id chef)
       = inr None.
Proof.
  destruct (create_chef_then_get "Luigi" None (App.db Stub.reviewed))
    as (chef & Hout & _ & _ & Hget & _).
  exists chef. split; [exact Hout|].
  assert (Hfit : int64 (Chef.id chef) = true).
  { vm_compute in Hout. inversion Hout. reflexivity. }
  split; [exact Hfit|]. exact (Hget Hfit).
Defined.

(** X4: an image added under a [pizza_id] that fits in 64 bits, to a
    table that has room for its key, comes last among the images of
    that pizza, and the images of every other pizza are as before; under
    any other [pizza_id] the call raises and stores nothing. *)
Theorem add_pizza_image_then_get (pizza_id : Z) (image_path : string)
  (store : Store) :
  let out := DatabaseManager.add_pizza_image pizza_id image_path store in
  (int64 pizza_id = true ->
   has_room (map PizzaImage.id (pizza_images store)) = true ->
   exists image before,
     fst out = inr image
     /\ PizzaImage.pizza_id image = pizza_id
     /\ PizzaImage.image_path image = image_path
     /\ DatabaseManager.get_pizza_images store pizza_id = inr before
     /\ DatabaseManager.get_pizza_images (snd out) pizza_id
        = inr (before ++ [image])
     /\ forall other, other <> pizza_id ->
          DatabaseManager.get_pizza_images (snd out) other
          = DatabaseManager.get_pizza_images store other)
  /\ (int64 pizza_id = false -> out = (inl int_too_large, store)).
Proof.
  intros out. subst out. split.
  - intros Hfit _. rewrite (add_pizza_image_run _ _ _ Hfit). cbv zeta.
    eexists. eexists. split; [reflexivity|].
    unfold DatabaseManager.get_pizza_images, DatabaseManager.bound.
    cbn [fst snd pizza_images set_pizza_images PizzaImage.pizza_id
         PizzaImage.image_path].
    rewrite Hfit.
    split; [reflexivity|]. split; [reflexivity|].
    split; [reflexivity|]. split.
    + rewrite filter_app. simpl. now rewrite Z.eqb_refl.
    + intros other Hother. destruct (int64 other); [|reflexivity].
      rewrite filter_app. simpl.
      destruct (Z.eqb_spec pizza_id other); [congruence|].
      now rewrite app_nil_r.
  - apply add_pizza_image_overflow.
Qed.

Lemma add_pizza_image_then_get_witness :
  (int64 1 = true
   /\ has_room (map PizzaImage.id (pizza_images (App.db Stub.reviewed)))
      = true
   /\ exists image before,
        DatabaseManager.get_pizza_images (App.db Stub.reviewed) 1
        = inr before
        /\ DatabaseManager.get_pizza_images
             (snd (DatabaseManager.add_pizza_image 1 "/static/second.jpg"
                     (App.db Stub.reviewed))) 1
           = inr (before ++ [image])
        /\ PizzaImage.image_path image = "/static/second.jpg")
  /\ (int64 (- 2 ^ 63 - 1) = false
      /\ DatabaseManager.add_pizza_image (- 2 ^ 63 - 1) "/static/second.jpg"
           (App.db Stub.reviewed)
         = (inl int_too_large, App.db Stub.reviewed)).
Proof.
  split.
  - split; [reflexivity|]. split; [reflexivity|].
    destruct (add_pizza_image_then_get 1 "/static/second.jpg"
                (App.db Stub.reviewed)) as [Hstored _].
    destruct (Hstored eq_refl eq_refl)
      as (image & before & _ & _ & Hpath & Hbefore & Hafter & _).
    exists image, before. auto.
  - split; [reflexivity|].
    apply (add_pizza_image_then_get (- 2 ^ 63 - 1) "/static/second.jpg"
             (App.db Stub.reviewed)).
    reflexivity.
Defined.

(** ** More on dictionaries *)

Lemma dict_set_fresh {V} (k : string) (v : V) (d : dict V) :
  ~ In k (keys d) -> dict_set k v d = d ++ [(k, v)].
Proof.
  induction d as [|[k' v'] d IH]; simpl; intros Hfresh; [reflexivity|].
  destruct (String.eqb_spec k k') as [->|Hne].
  - exfalso. apply Hfresh. now left.
  - f_equal. apply IH. intros Hin. apply Hfresh. now right.
Qed.

Lemma fold_set_distinct {A V} (key : A -> string) (val : A -> V)
  (xs : list A) (d : dict V) :
  NoDup (keys d ++ map key xs) ->
  fold_left (fun d x => dict_set (key x) (val x) d) xs d
  = d ++ map (fun x => (key x, val x)) xs.
Proof.
  revert d. induction xs as [|x xs IH]; intros d Hnd; simpl.
  - now rewrite app_nil_r.
  - assert (Hfresh : ~ In (key x) (keys d)).
    { intros Hin. simpl in Hnd. apply NoDup_remove_2 in Hnd.
      apply Hnd. apply in_or_app. now left. }
    rewrite (dict_set_fresh _ _ _ Hfresh), IH.
    + now rewrite <- app_assoc.
    + unfold keys. rewrite map_app, <- app_assoc. exact Hnd.
Qed.

(** A comprehension over distinct keys lists its items in order. *)
Lemma dict_comp_distinct {A V} (key : A -> string) (val : A -> V)
  (xs : list A) :
  NoDup (map key xs) ->
  dict_comp key val xs = map (fun x => (key x, val x)) xs.
Proof.
  intros Hnd. unfold dict_comp. now rewrite fold_set_distinct.
Qed.

Lemma keys_dict_comp {A V} (key : A -> string) (val : A -> V)
  (xs : list A) :
  NoDup (map key xs) -> keys (dict_comp key val xs) = map key xs.
Proof.
  intros Hnd. rewrite dict_comp_distinct by exact Hnd.
  unfold keys. now rewrite map_map.
Qed.

(** ** The AI gateway *)

Lemma slept_app (tr1 tr2 : trace) : slept (tr1 ++ tr2) = slept tr1 + slept tr2.
Proof.
  induction tr1 as [|[image prompt|request|seconds] tr1 IH]; simpl; lia.
Qed.

Section Gateway.
Context `{Externals}.
Import Ai.

Lemma generate_chef_image_loop (reference_image_bytes : bytes)
  (prompt : string) (tr : trace) :
  read_text "src/prompts/chef_image.txt" = Some prompt ->
  generate_chef_image reference_image_bytes tr
  = retry_loop
      match normalize_image reference_image_bytes with
      | Some processed => processed
      | None => reference_image_bytes
      end prompt (range 3) 2 tr.
Proof.
  intros Hprompt. unfold generate_chef_image, open_read, Eff.bind.
  rewrite Hprompt. reflexivity.
Qed.

(** X5: when the prompt file cannot be read, [generate_chef_image]
    raises before any remote call: nothing is sent and nothing is
    slept. *)
Theorem generate_chef_image_without_prompt (reference_image_bytes : bytes)
  (tr : trace) :
  read_text "src/prompts/chef_image.txt" = None ->
  generate_chef_image reference_image_bytes tr
  = (inl (FileNotFoundError "src/prompts/chef_image.txt"), tr).
Proof.
  intros Hprompt. unfold generate_chef_image, open_read, Eff.bind.
  now rewrite Hprompt.
Qed.

(** X6: an attempt that succeeds ends the loop.  When the first attempt
    succeeds there is one remote call and no sleep; when the first
    fails and the second succeeds there are two calls with one sleep of
    2 seconds between them. *)
Theorem generate_chef_image_stops_at_success
  (reference_image_bytes : bytes) (prompt : string) (tr : trace) :
  read_text "src/prompts/chef_image.txt" = Some prompt ->
  let sent := match normalize_image reference_image_bytes with
              | Some processed => processed
              | None => reference_image_bytes
              end in
  let k := remote_calls tr in
  let out := generate_chef_image reference_image_bytes tr in
  (forall image_bytes,
     attempt_outcome k sent prompt = inr image_bytes ->
     out = (inr (Some image_bytes), tr ++ [ImagesEdit sent prompt]))
  /\ (forall e image_bytes,
        attempt_outcome k sent prompt = inl e ->
        attempt_outcome (k + 1) sent prompt = inr image_bytes ->
        out = (inr (Some image_bytes),
               tr ++ [ImagesEdit sent prompt; Sleep 2;
                      ImagesEdit sent prompt])).
Proof.
  intros Hprompt sent k out. subst out.
  rewrite (generate_chef_image_loop _ prompt tr Hprompt), retry_loop_three.
  fold sent k. split.
  - intros image_bytes H0. now rewrite H0.
  - intros e image_bytes H0 H1. now rewrite H0, H1.
Qed.

(** X7: whatever the remote call does, [generate_chef_image] sleeps at
    most 6 seconds in all, and it never returns [None]: it returns
    bytes or raises. *)
Theorem generate_chef_image_sleeps_at_most_6
  (reference_image_bytes : bytes) (tr : trace) :
  let out := generate_chef_image reference_image_bytes tr in
  slept tr <= slept (snd out) <= slept tr + 6
  /\ fst out <> inr None.
Proof.
  intros out. subst out.
  destruct (read_text "src/prompts/chef_image.txt") as [prompt|] eqn:Hprompt.
  - rewrite (generate_chef_image_loop _ prompt tr Hprompt), retry_loop_three.
    cbv zeta.
    destruct (attempt_outcome _ _ _) as [e0|b0];
      [destruct (attempt_outcome _ _ _) as [e1|b1];
       [destruct (attempt_outcome _ _ _) as [e2|b2]|]|];
      cbn [fst snd]; rewrite slept_app; simpl; split;
      try lia; discriminate.
  - rewrite (generate_chef_image_without_prompt _ tr Hprompt).
    cbn [fst snd]. split; [lia|discriminate].
Qed.

Lemma build_image_parts_app (fs : string -> option bytes)
  (paths : list string) (parts : list string) :
  build_image_parts fs paths parts
  = parts ++ build_image_parts fs paths [].
Proof.
  revert parts. induction paths as [|p paths IH]; intros parts; simpl.
  - now rewrite app_nil_r.
  - destruct (fs (path_join_src (lstrip_slash p))) as [content|].
    + rewrite (IH (parts ++ _)), (IH [_]). now rewrite <- app_assoc.
    + apply IH.
Qed.

(** X8: the image parts are the data URLs of the files that could be
    read, one per readable path and in the order of the paths; a path
    that cannot be read is skipped. *)
Theorem build_image_parts_readable (fs : string -> option bytes)
  (pizza_image_paths : list string) :
  build_image_parts fs pizza_image_paths []
  = flat_map
      (fun image_path =>
         match fs (path_join_src (lstrip_slash image_path)) with
         | Some content => ["data:image/jpeg;base64," +++ b64encode content]
         | None => []
         end)
      pizza_image_paths.
Proof.
  induction pizza_image_paths as [|p paths IH]; simpl; [reflexivity|].
  destruct (fs (path_join_src (lstrip_slash p))) as [content|].
  - rewrite build_image_parts_app, IH. reflexivity.
  - exact IH.
Qed.

(** X9: when the system prompt loads and at least one image can be
    read, [review_pizza_images] makes exactly one remote call.  The
    request carries the formatted system prompt, the user prompt that
    names the chef, the image parts, and a schema that requires the
    name of every category (the names being distinct); the result is
    the provider's answer as [json.loads] parses it, or the exception of
    either. *)
Theorem review_with_images_calls_once (store : Store)
  (fs : string -> option bytes) (pizza_image_paths : list string)
  (chef_name : string) (tr : trace) (template formatted : string) :
  read_text "src/prompts/pizza_review_system_prompt.txt" = Some template ->
  str_format template chef_name = inr formatted ->
  build_image_parts fs pizza_image_paths [] <> [] ->
  NoDup (map ReviewCategory.name (review_categories store)) ->
  let request :=
    {| system_prompt := formatted;
       user_prompt :=
         "Here is the submission from chef " +++ chef_name +++ ". "
         +++ "Please review it and produce ONLY JSON matching the schema.";
       image_parts := build_image_parts fs pizza_image_paths [];
       schema_required :=
         map ReviewCategory.name (review_categories store) |} in
  review_pizza_images store fs pizza_image_paths chef_name tr
  = (match chat_completions_create (remote_calls tr) request with
     | inl e => inl e
     | inr review => json_loads review
     end,
     tr ++ [ChatCompletionsCreate request]).
Proof.
  intros Hread Hformat Hparts Hnames request.
  unfold review_pizza_images, open_read, Eff.bind, Eff.lift_result.
  rewrite Hread. simpl. rewrite Hformat. simpl.
  assert (Hkeys :
    keys (dict_comp (fun cat : string => cat) (fun _ => (1, 5))
            (map ReviewCategory.name (review_categories store)))
    = map ReviewCategory.name (review_categories store)).
  { rewrite keys_dict_comp; [apply map_id|]. now rewrite map_id. }
  destruct (build_image_parts fs pizza_image_paths []) as [|part parts]
    eqn:Hbuilt; [contradiction|].
  unfold client_chat_completions_create. rewrite Hkeys.
  subst request.
  now destruct (chat_completions_create _ _).
Qed.

End Gateway.

Lemma generate_chef_image_stops_at_success_witness :
  @Ai.generate_chef_image Stub.externals [Byte.x50]
    [ImagesEdit [] "a"; ImagesEdit [] "b"]
  = (inr (Some [Byte.x41]),
     [ImagesEdit [] "a"; ImagesEdit [] "b";
      ImagesEdit [Byte.x50] "<src/prompts/chef_image.txt>"])
  /\ @Ai.generate_chef_image Stub.externals [Byte.x50] [ImagesEdit [] "a"]
     = (inr (Some [Byte.x41]),
        [ImagesEdit [] "a";
         ImagesEdit [Byte.x50] "<src/prompts/chef_image.txt>"; Sleep 2;
         ImagesEdit [Byte.x50] "<src/prompts/chef_image.txt>"]).
Proof.
  split.
  - destruct (@generate_chef_image_stops_at_success Stub.externals
                [Byte.x50] "<src/prompts/chef_image.txt>"
                [ImagesEdit [] "a"; ImagesEdit [] "b"] eq_refl)
      as [Hfirst _].
    exact (Hfirst [Byte.x41] eq_refl).
  - destruct (@generate_chef_image_stops_at_success Stub.externals
                [Byte.x50] "<src/prompts/chef_image.txt>"
                [ImagesEdit [] "a"] eq_refl)
      as [_ Hsecond].
    exact (Hsecond (ExternalError "timeout") [Byte.x41] eq_refl eq_refl).
Defined.

Lemma generate_chef_image_without_prompt_witness :
  @Ai.generate_chef_image Stub.promptless [Byte.x50] []
  = (inl (FileNotFoundError "src/prompts/chef_image.txt"), []).
Proof.
  apply (@generate_chef_image_without_prompt Stub.promptless [Byte.x50] []).
  reflexivity.
Defined.

Lemma review_with_images_calls_once_witness :
  let fs := fun path : string => Some [Byte.x41] in
  let request :=
    {| system_prompt :=
         "<src/prompts/pizza_review_system_prompt.txt>Mario";
       user_prompt :=
         "Here is the submission from chef Mario. "
         +++ "Please review it and produce ONLY JSON matching the schema.";
       image_parts := ["data:image/jpeg;base64,QQ=="];
       schema_required :=
         ["Shape"; "Crust Quality"; "Presentation"; "Bake Quality";
          "Flavor (estimated)"; "Overall"] |} in
  @Ai.review_pizza_images Stub.externals Stub.seeded fs
    ["/static/images/pizzas/a.jpg"] "Mario" []
  = (inr {| ReviewData.review_summary := Some "Good";
            ReviewData.scores := Some [("Shape", 4); ("Aroma", 2)] |},
     [ChatCompletionsCreate request]).
Proof.
  intros fs request.
  apply (@review_with_images_calls_once Stub.externals Stub.seeded fs
           ["/static/images/pizzas/a.jpg"] "Mario" []
           "<src/prompts/pizza_review_system_prompt.txt>"
           "<src/prompts/pizza_review_system_prompt.txt>Mario").
  - reflexivity.
  - reflexivity.
  - discriminate.
  - repeat constructor; simpl; intuition discriminate.
Defined.

Lemma build_image_parts_readable_witness :
  let fs := fun path =>
    if String.eqb path "src/static/images/pizzas/kept.jpg"
    then Some [Byte.x41] else None in
  @Ai.build_image_parts Stub.externals fs
    ["/static/images/pizzas/gone.jpg"; "/static/images/pizzas/kept.jpg"] []
  = ["data:image/jpeg;base64,QQ=="].
Proof.
  intros fs.
  exact (@build_image_parts_readable Stub.externals fs
           ["/static/images/pizzas/gone.jpg";
            "/static/images/pizzas/kept.jpg"]).
Defined.

(** ** The request layer and the background task *)


Lemma world_eta (w : World) :
  {| db := db w; files := files w; tasks := tasks w;
     uuid_draws := uuid_draws w; events := events w |} = w.
Proof. now destruct w. Qed.

Section Requests.
Context `{Externals}.

(** X10: [POST /submit-pizza] for a chef that exists.  With no image or
    more than three the handler answers "Please upload 1-3 pizza
    images"; with one to three images of which one has a file name
    whose extension is not allowed it answers "Invalid image format.
    ...".  In both cases the world is left as it was: no pizza row, no
    file, no task. *)
Theorem submit_pizza_handler_rejects (chef_id : Z) (chef : Chef.t)
  (images : list UploadFile) (w : World) :
  DatabaseManager.get_chef_by_id (db w) chef_id = inr (Some chef) ->
  ((length images < 1 \/ 3 < length images)%nat ->
   submit_pizza_handler chef_id images w
   = (TemplateResponse "submit_pizza.html"
        [("chefs", CChefs (DatabaseManager.get_all_chefs (db w)));
         ("selected_chef_id", CInt chef_id);
         ("error", CStr "Please upload 1-3 pizza images");
         ("title", CStr "Submit Pizza for Judgment")], w))
  /\ ((1 <= length images <= 3)%nat ->
      existsb bad_extension images = true ->
      submit_pizza_handler chef_id images w
      = (TemplateResponse "submit_pizza.html"
           [("chefs", CChefs (DatabaseManager.get_all_chefs (db w)));
            ("selected_chef_id", CInt chef_id);
            ("error", CStr
               "Invalid image format. Please use JPG, PNG, GIF, or WebP.");
            ("title", CStr "Submit Pizza for Judgment")], w)).
Proof.
  intros Hchef. split.
  - intros Hcount.
    unfold submit_pizza_handler, handle, db_read, Eff.bind.
    rewrite Hchef.
    replace ((Z.of_nat (length images) <? 1)
             || (3 <? Z.of_nat (length images))) with true; [reflexivity|].
    symmetry. apply orb_true_iff.
    destruct Hcount; [left; apply Z.ltb_lt|right; apply Z.ltb_lt]; lia.
  - intros Hcount Hbad.
    unfold submit_pizza_handler, handle, db_read, Eff.bind.
    rewrite Hchef.
    replace ((Z.of_nat (length images) <? 1)
             || (3 <? Z.of_nat (length images))) with false.
    + rewrite Hbad. reflexivity.
    + symmetry. apply orb_false_iff. split; apply Z.ltb_ge; lia.
Qed.

(** X11: a review that fails leaves the store alone.  When
    [review_pizza_images] raises, the background task changes nothing
    but the record of remote calls; when the system prompt cannot be
    read, it changes nothing at all. *)
Theorem failed_review_stores_nothing (pizza_id : Z)
  (image_paths : list string) (chef_name : string) (w : World) :
  let w' := process_pizza_review_background pizza_id image_paths
              chef_name w in
  (forall e,
     fst (Ai.review_pizza_images (db w) (fs_of w) image_paths chef_name
            (events w)) = inl e ->
     db w' = db w /\ files w' = files w /\ tasks w' = tasks w)
  /\ (read_text "src/prompts/pizza_review_system_prompt.txt" = None ->
      w' = w).
Proof.
  intros w'. subst w'. unfold process_pizza_review_background. split.
  - intros e Hfail.
    destruct (Ai.review_pizza_images _ _ _ _ _) as [[e'|data] tr];
      [now repeat split|discriminate].
  - intros Hprompt.
    unfold Ai.review_pizza_images, Ai.open_read, Eff.bind.
    rewrite Hprompt. simpl. apply world_eta.
Qed.

End Requests.

(** X13: before the first commit the review is all or nothing.  A
    review result without a summary, and a [pizza_id] that SQLite
    cannot hold, both end in the [except] clause with nothing
    committed: the store is left as it was. *)
Theorem save_review_fails_before_commit (pizza_id : Z)
  (review_data : ReviewData.t) (store : Store) :
  (ReviewData.review_summary review_data = None ->
   save_review pizza_id review_data store = (inr tt, store))
  /\ (int64 pizza_id = false ->
      save_review pizza_id review_data store = (inr tt, store)).
Proof.
  destruct review_data as [[summary|] scores]; simpl.
  - split; [discriminate|]. intros Hbig.
    rewrite (save_review_run pizza_id summary scores store).
    now rewrite Hbig.
  - split; intros _; apply save_review_missing_summary.
Qed.

Lemma save_review_fails_before_commit_witness :
  (ReviewData.review_summary
     {| ReviewData.review_summary := None;
        ReviewData.scores := Some [("Shape", 4)] |} = None
   /\ save_review 1
        {| ReviewData.review_summary := None;
           ReviewData.scores := Some [("Shape", 4)] |}
        (db Stub.submitted)
      = (inr tt, db Stub.submitted))
  /\ (int64 (2 ^ 63) = false
      /\ save_review (2 ^ 63)
           {| ReviewData.review_summary := Some "Good";
              ReviewData.scores := Some [("Shape", 4)] |}
           (db Stub.submitted)
         = (inr tt, db Stub.submitted)).
Proof.
  split.
  - split; [reflexivity|].
    apply (proj1 (save_review_fails_before_commit 1
                    {| ReviewData.review_summary := None;
                       ReviewData.scores := Some [("Shape", 4)] |}
                    (db Stub.submitted))).
    reflexivity.
  - split; [reflexivity|].
    apply (proj2 (save_review_fails_before_commit (2 ^ 63)
                    {| ReviewData.review_summary := Some "Good";
                       ReviewData.scores := Some [("Shape", 4)] |}
                    (db Stub.submitted))).
    reflexivity.
Defined.

Lemma submit_pizza_handler_rejects_witness :
  DatabaseManager.get_chef_by_id (db Stub.submitted) 1
  = inr (Some {| Chef.id := 1; Chef.name := "Mario";
                 Chef.image_path := None |})
  /\ ((length (@nil UploadFile) < 1 \/ 3 < length (@nil UploadFile))%nat
      /\ @submit_pizza_handler Stub.externals 1 [] Stub.submitted
         = (TemplateResponse "submit_pizza.html"
              [("chefs",
                CChefs (DatabaseManager.get_all_chefs (db Stub.submitted)));
               ("selected_chef_id", CInt 1);
               ("error", CStr "Please upload 1-3 pizza images");
               ("title", CStr "Submit Pizza for Judgment")],
            Stub.submitted))
  /\ ((1 <= length [Stub.margherita] <= 3)%nat
      /\ existsb (@bad_extension Stub.bitmaps) [Stub.margherita] = true
      /\ @submit_pizza_handler Stub.bitmaps 1 [Stub.margherita]
           Stub.submitted
         = (TemplateResponse "submit_pizza.html"
              [("chefs",
                CChefs (DatabaseManager.get_all_chefs (db Stub.submitted)));
               ("selected_chef_id", CInt 1);
               ("error", CStr
                  "Invalid image format. Please use JPG, PNG, GIF, or WebP.");
               ("title", CStr "Submit Pizza for Judgment")],
            Stub.submitted)).
Proof.
  split; [reflexivity|]. split.
  - split; [left; simpl; lia|].
    apply (@submit_pizza_handler_rejects Stub.externals 1
             {| Chef.id := 1; Chef.name := "Mario";
                Chef.image_path := None |} [] Stub.submitted eq_refl).
    left. simpl. lia.
  - split; [simpl; lia|]. split; [reflexivity|].
    apply (@submit_pizza_handler_rejects Stub.bitmaps 1
             {| Chef.id := 1; Chef.name := "Mario";
                Chef.image_path := None |} [Stub.margherita]
             Stub.submitted eq_refl).
    + simpl. lia.
    + reflexivity.
Defined.

Lemma failed_review_stores_nothing_witness :
  let w' := @process_pizza_review_background Stub.promptless 1
              ["/static/images/pizzas/pizza_1_1_0a1b2c3d.jpg"] "Mario"
              Stub.submitted in
  (fst (@Ai.review_pizza_images Stub.promptless (db Stub.submitted)
          (fs_of Stub.submitted)
          ["/static/images/pizzas/pizza_1_1_0a1b2c3d.jpg"] "Mario"
          (events Stub.submitted))
   = inl (FileNotFoundError "src/prompts/pizza_review_system_prompt.txt")
   /\ db w' = db Stub.submitted)
  /\ w' = Stub.submitted.
Proof.
  intros w'.
  destruct (@failed_review_stores_nothing Stub.promptless 1
              ["/static/images/pizzas/pizza_1_1_0a1b2c3d.jpg"] "Mario"
              Stub.submitted) as [Hfail Hprompt].
  split.
  - split; [reflexivity|].
    exact (proj1 (Hfail (FileNotFoundError
                           "src/prompts/pizza_review_system_prompt.txt")
                    eq_refl)).
  - exact (Hprompt eq_refl).
Defined.


(** ** More on the leaderboard *)

Lemma NoDup_firstn {A} (n : nat) (l : list A) :
  NoDup l -> NoDup (firstn n l).
Proof.
  revert l. induction n as [|n IH]; intros [|x l] Hnd; simpl;
    try constructor.
  - inversion Hnd as [|? ? Hx _]; subst.
    intros Hin. apply Hx. now apply firstn_In in Hin.
  - inversion Hnd; subst. now apply IH.
Qed.

Lemma pizzas_with_scores_keys (db : Store) (rows : list (Z * Q)) :
  NoDup (map fst rows) ->
  NoDup (map (fun entry => Pizza.id (fst entry))
             (pizzas_with_scores db rows)).
Proof.
  induction rows as [|[pid a] rows IH]; simpl; intros Hnd; [constructor|].
  inversion Hnd as [|? ? Hfresh Hnd']; subst.
  destruct (find _ (pizzas db)) as [pizza|] eqn:Hfind; [|now apply IH].
  simpl. constructor; [|now apply IH].
  apply find_some in Hfind. destruct Hfind as [_ Hid].
  apply Z.eqb_eq in Hid. rewrite Hid.
  intros Hin. apply Hfresh. apply in_map_iff in Hin.
  destruct Hin as ([p q] & Hkey & Hin). simpl in Hkey.
  apply pizzas_with_scores_In in Hin. destruct Hin as [Hin _].
  rewrite Hkey in Hin. now apply (in_map fst) in Hin.
Qed.

Lemma pizzas_with_scores_complete (db : Store) (rows : list (Z * Q))
  (p : Pizza.t) (q : Q) :
  In (Pizza.id p, q) rows ->
  find (fun p' => Pizza.id p' =? Pizza.id p) (pizzas db) = Some p ->
  In (p, q) (pizzas_with_scores db rows).
Proof.
  intros Hin Hfind. revert Hin.
  induction rows as [|[pid a] rows IH]; simpl; [contradiction|].
  intros [Heq|Hin].
  - inversion Heq; subst. rewrite Hfind. now left.
  - destruct (find (fun p' => Pizza.id p' =? pid) (pizzas db));
      simpl; auto.
Qed.

Section Board.
Context `{Sqlite}.

Lemma insert_desc_perm (x : Z * Q) (l : list (Z * Q)) :
  Permutation (insert_desc x l) (x :: l).
Proof.
  induction l as [|y l IH]; simpl; [reflexivity|].
  destruct (goes_before x y); [reflexivity|].
  rewrite IH. apply perm_swap.
Qed.

Lemma order_by_avg_desc_perm (l : list (Z * Q)) :
  Permutation (order_by_avg_desc l) l.
Proof.
  induction l as [|x l IH]; simpl; [reflexivity|].
  rewrite insert_desc_perm. now constructor.
Qed.

Lemma group_by_pizza_keys (db : Store) (ps : list Pizza.t) :
  NoDup (map Pizza.id ps) -> NoDup (map fst (group_by_pizza db ps)).
Proof.
  induction ps as [|p ps IH]; simpl; intros Hnd; [constructor|].
  inversion Hnd as [|? ? Hfresh Hnd']; subst.
  destruct (joined_scores db p) as [|sc scs]; [now apply IH|].
  simpl. constructor; [|now apply IH].
  intros Hin. apply Hfresh. apply in_map_iff in Hin.
  destruct Hin as ([pid q] & Hkey & Hin). simpl in Hkey. subst pid.
  apply group_by_pizza_In in Hin.
  destruct Hin as (p' & Hp' & Hid & _). rewrite <- Hid.
  now apply in_map.
Qed.

Lemma group_by_pizza_complete (db : Store) (ps : list Pizza.t)
  (p : Pizza.t) :
  In p ps -> joined_scores db p <> [] ->
  In (Pizza.id p, avg (joined_scores db p)) (group_by_pizza db ps).
Proof.
  induction ps as [|p' ps IH]; simpl; [contradiction|].
  intros [->|Hin] Hsome.
  - destruct (joined_scores db p); [contradiction|now left].
  - destruct (joined_scores db p'); [|right]; now apply IH.
Qed.

(** X14: in a store whose pizza keys are distinct, no pizza is listed
    twice on the leaderboard; and when at most ten pizzas have scores,
    each of them is listed, with the value of [avg()] over its
    scores. *)
Theorem leaderboard_lists_each_pizza_once (store : Store) :
  NoDup (map Pizza.id (pizzas store)) ->
  let l := pizzas_with_scores store (pizza_scores store) in
  NoDup (map (fun entry => Pizza.id (fst entry)) l)
  /\ ((length (group_by_pizza store (pizzas store)) <= 10)%nat ->
      forall p, In p (pizzas store) -> joined_scores store p <> [] ->
                In (p, avg (joined_scores store p)) l).
Proof.
  intros Hkeys l. subst l. unfold pizza_scores. split.
  - apply pizzas_with_scores_keys. rewrite <- firstn_map.
    apply NoDup_firstn.
    apply (Permutation_NoDup
             (l := map fst (group_by_pizza store (pizzas store)))).
    + apply Permutation_map. symmetry. apply order_by_avg_desc_perm.
    + now apply group_by_pizza_keys.
  - intros Hfew p Hp Hsome.
    apply pizzas_with_scores_complete.
    + rewrite firstn_all2.
      * apply order_by_avg_desc_In. now apply group_by_pizza_complete.
      * rewrite (Permutation_length (order_by_avg_desc_perm _)).
        exact Hfew.
    + now apply find_by_key.
Qed.

End Board.

Lemma leaderboard_lists_each_pizza_once_witness :
  let l := pizzas_with_scores Stub.tied
             (@pizza_scores Stub.sqlite Stub.tied) in
  NoDup (map Pizza.id (pizzas Stub.tied))
  /\ NoDup (map (fun entry => Pizza.id (fst entry)) l)
  /\ In ({| Pizza.id := 1; Pizza.chef_id := 1 |},
         @avg Stub.sqlite
           (joined_scores Stub.tied
              {| Pizza.id := 1; Pizza.chef_id := 1 |})) l.
Proof.
  intros l.
  assert (Hkeys : NoDup (map Pizza.id (pizzas Stub.tied))).
  { repeat constructor; simpl; intuition discriminate. }
  destruct (@leaderboard_lists_each_pizza_once Stub.sqlite Stub.tied Hkeys)
    as [Honce Hall].
  split; [exact Hkeys|]. split; [exact Honce|].
  apply Hall.
  - simpl. lia.
  - now left.
  - discriminate.
Defined.

(** ** From the request to the stored rows *)

(** The rows added for one constant score per category of a list. *)
Lemma new_score_rows_constant (db : Store) (rid v : Z)
  (cs : list ReviewCategory.t) (rows : list PizzaReviewScore.t) :
  NoDup (map ReviewCategory.name (review_categories db)) ->
  incl cs (review_categories db) ->
  map (fun r => (PizzaReviewScore.pizza_review_id r,
                 PizzaReviewScore.category_id r,
                 PizzaReviewScore.score r))
      (new_score_rows rid (category_map_of db)
         (map (fun c => (ReviewCategory.name c, v)) cs) rows)
  = map (fun c => (rid, ReviewCategory.id c, v)) cs.
Proof.
  intros Hnames. revert rows.
  induction cs as [|c cs IH]; intros rows Hincl; simpl; [reflexivity|].
  rewrite (category_map_known db c Hnames) by (apply Hincl; now left).
  simpl. f_equal. apply IH. intros c' Hc'. apply Hincl. now right.
Qed.

Section Background.
Context `{Externals}.

(** X12: the sentinel end to end.  When the system prompt loads and no
    image of the submission can be read, the background task makes no
    remote call and stores a review with the summary "No images
    supplied for review." and, for every category in turn, one score
    row of that review with the score 0. *)
Theorem unreadable_images_store_zero_scores (pizza_id : Z)
  (image_paths : list string) (chef_name : string) (w : World)
  (template formatted : string) :
  read_text "src/prompts/pizza_review_system_prompt.txt" = Some template ->
  str_format template chef_name = inr formatted ->
  (forall p, In p image_paths ->
             fs_of w (path_join_src (lstrip_slash p)) = None) ->
  int64 pizza_id = true ->
  has_room (map PizzaReview.id (pizza_review (db w))) = true ->
  NoDup (map ReviewCategory.name (review_categories (db w))) ->
  let w' := process_pizza_review_background pizza_id image_paths
              chef_name w in
  let review := new_review pizza_id "No images supplied for review."
                  (db w) in
  events w' = events w
  /\ pizza_review (db w') = pizza_review (db w) ++ [review]
  /\ exists new_rows,
       pizza_review_scores (db w') = pizza_review_scores (db w) ++ new_rows
       /\ map (fun r => (PizzaReviewScore.pizza_review_id r,
                         PizzaReviewScore.category_id r,
                         PizzaReviewScore.score r)) new_rows
          = map (fun c => (PizzaReview.id review, ReviewCategory.id c, 0))
                (review_categories (db w)).
Proof.
  intros Hread Hformat Hnone Hfit _ Hnames w' review.
  assert (Hreview :
    Ai.review_pizza_images (db w) (fs_of w) image_paths chef_name (events w)
    = (inr {| ReviewData.review_summary :=
                Some "No images supplied for review.";
              ReviewData.scores :=
                Some (map (fun c => (ReviewCategory.name c, 0))
                          (review_categories (db w))) |},
       events w)).
  { unfold Ai.review_pizza_images, Ai.open_read, Eff.bind, Eff.lift_result.
    rewrite Hread. simpl. rewrite Hformat. simpl.
    rewrite (build_image_parts_unreadable _ _ _ Hnone).
    unfold Eff.ret, Ai.no_images_summary. do 3 f_equal.
    rewrite dict_comp_distinct by now rewrite map_id.
    now rewrite map_map. }
  subst w'. unfold process_pizza_review_background. rewrite Hreview.
  rewrite (save_review_fits pizza_id _ _ (db w) Hfit).
  2:{ intros n sc Hin _. apply in_map_iff in Hin.
      destruct Hin as (c & Heq & _). now inversion Heq. }
  cbn [db events]. split; [reflexivity|]. split; [reflexivity|].
  eexists. split; [reflexivity|].
  apply new_score_rows_constant; [exact Hnames|apply incl_refl].
Qed.

Lemma set_pizza_images_twice (d : Store) (a b : list PizzaImage.t) :
  set_pizza_images (set_pizza_images d a) b = set_pizza_images d b.
Proof. reflexivity. Qed.

(** The loop of [submit_pizza_handler] that stores the uploads. *)
Lemma save_pizza_images_run (pizza_id : Z) (images : list UploadFile) :
  int64 pizza_id = true ->
  forall (i : Z) (paths : list string) (w : World),
  exists new_paths new_rows w',
    save_pizza_images pizza_id i images paths w
    = (inr (paths ++ new_paths), w')
    /\ db w' = set_pizza_images (db w) (pizza_images (db w) ++ new_rows)
    /\ tasks w' = tasks w
    /\ events w' = events w
    /\ map PizzaImage.image_path new_rows = new_paths
    /\ Forall (fun r => PizzaImage.pizza_id r = pizza_id) new_rows
    /\ length new_paths = length (named_uploads images).
Proof.
  intros Hfit. induction images as [|image images IH]; intros i paths w.
  - exists [], [], w. simpl. rewrite !app_nil_r.
    repeat split; trivial. now destruct (db w).
  - simpl. unfold named_uploads. simpl.
    destruct (truthy_filename image) as [fname|].
    + unfold Eff.bind at 1, uuid_hex8.
      unfold Eff.bind at 1, write_file, Eff.modify.
      unfold Eff.bind at 1, db_call. cbn [db files tasks uuid_draws events].
      rewrite (add_pizza_image_run pizza_id _ _ Hfit). cbv zeta.
      match goal with
      | |- context [save_pizza_images pizza_id ?i' images ?paths' ?w1] =>
          destruct (IH i' paths' w1)
            as (new_paths & new_rows & w' & -> & Hdb & Htasks & Hevents
                & Hpaths & Hrows & Hlen)
      end.
      cbn [db tasks events] in Hdb, Htasks, Hevents.
      eexists (_ :: new_paths), (_ :: new_rows), w'.
      split; [now rewrite <- app_assoc|].
      split.
      { rewrite Hdb. cbn [pizza_images set_pizza_images].
        rewrite <- app_assoc. reflexivity. }
      split; [exact Htasks|]. split; [exact Hevents|].
      split; [simpl; now rewrite Hpaths|].
      split; [constructor; [reflexivity|exact Hrows]|].
      simpl. now rewrite Hlen.
    + apply IH.
Qed.

Lemma submit_pizza_handler_run (chef_id : Z) (chef : Chef.t)
  (images : list UploadFile) (w : World) :
  DatabaseManager.get_chef_by_id (db w) chef_id = inr (Some chef) ->
  (1 <= length images <= 3)%nat ->
  existsb bad_extension images = false ->
  int64 (next_id (map Pizza.id (pizzas (db w)))) = true ->
  let pizza := {| Pizza.id := next_id (map Pizza.id (pizzas (db w)));
                  Pizza.chef_id := chef_id |} in
  exists new_images w',
    submit_pizza_handler chef_id images w
    = (RedirectResponse ("/pizza/" +++ str_of_int (Pizza.id pizza)) 303, w')
    /\ db w'
       = set_pizza_images (set_pizzas (db w) (pizzas (db w) ++ [pizza]))
           (pizza_images (db w) ++ new_images)
    /\ tasks w'
       = tasks w
         ++ [process_pizza_review_task (Pizza.id pizza)
               (map PizzaImage.image_path new_images) (Chef.name chef)]
    /\ Forall (fun r => PizzaImage.pizza_id r = Pizza.id pizza) new_images
    /\ length new_images = length (named_uploads images).
Proof.
  intros Hchef Hcount Hgood Hkey pizza.
  assert (Hfit : int64 chef_id = true).
  { unfold DatabaseManager.get_chef_by_id, DatabaseManager.bound in Hchef.
    destruct (int64 chef_id); [reflexivity|discriminate]. }
  unfold submit_pizza_handler, handle, db_read.
  unfold Eff.bind at 1. rewrite Hchef.
  replace ((Z.of_nat (length images) <? 1)
           || (3 <? Z.of_nat (length images))) with false
    by (symmetry; apply orb_false_iff; split; apply Z.ltb_ge; lia).
  rewrite Hgood.
  unfold Eff.bind at 1, db_call.
  rewrite (create_pizza_run chef_id (db w) Hfit). cbv zeta. fold pizza.
  unfold Eff.bind at 1.
  match goal with
  | |- context [save_pizza_images ?pid ?i images ?paths ?w1] =>
      destruct (save_pizza_images_run pid images Hkey i paths w1)
        as (new_paths & new_rows & w' & -> & Hdb & Htasks & Hevents
            & Hpaths & Hrows & Hlen)
  end.
  cbn [db tasks] in Hdb, Htasks.
  unfold Eff.bind, add_task, Eff.modify, Eff.ret. cbn [app].
  eexists new_rows, _. split; [reflexivity|].
  cbn [db tasks]. rewrite Hdb, Htasks, Hpaths.
  repeat split; trivial.
  rewrite <- Hlen, <- Hpaths. now rewrite length_map.
Qed.

(** X16: [POST /submit-pizza] for a chef that exists, with one to three
    images none of which has a file name with an extension that is not
    allowed.  The handler stores one pizza of that chef, one image row
    of that pizza per upload that has a file name, schedules one review
    task for the pizza with the paths of those rows and the chef's
    name, and redirects to the page of the pizza. *)
Theorem submit_pizza_handler_accepts (chef_id : Z) (chef : Chef.t)
  (images : list UploadFile) (w : World) :
  DatabaseManager.get_chef_by_id (db w) chef_id = inr (Some chef) ->
  (1 <= length images <= 3)%nat ->
  existsb bad_extension images = false ->
  int64 (next_id (map Pizza.id (pizzas (db w)))) = true ->
  let pizza := {| Pizza.id := next_id (map Pizza.id (pizzas (db w)));
                  Pizza.chef_id := chef_id |} in
  let out := submit_pizza_handler chef_id images w in
  exists new_images,
    fst out
    = RedirectResponse ("/pizza/" +++ str_of_int (Pizza.id pizza)) 303
    /\ pizzas (db (snd out)) = pizzas (db w) ++ [pizza]
    /\ pizza_images (db (snd out)) = pizza_images (db w) ++ new_images
    /\ Forall (fun r => PizzaImage.pizza_id r = Pizza.id pizza) new_images
    /\ length new_images = length (named_uploads images)
    /\ tasks (snd out)
       = tasks w
         ++ [process_pizza_review_task (Pizza.id pizza)
               (map PizzaImage.image_path new_images) (Chef.name chef)]
    /\ chefs (db (snd out)) = chefs (db w)
    /\ pizza_review (db (snd out)) = pizza_review (db w)
    /\ pizza_review_scores (db (snd out)) = pizza_review_scores (db w).
Proof.
  intros Hchef Hcount Hgood Hkey pizza out. subst out.
  destruct (submit_pizza_handler_run chef_id chef images w
              Hchef Hcount Hgood Hkey)
    as (new_images & w' & -> & Hdb & Htasks & Hrows & Hlen).
  exists new_images. cbn [fst snd]. rewrite Hdb, Htasks.
  repeat split; trivial.
Qed.

Lemma create_chef_submit_run (name : string) (upload : UploadFile)
  (fname : string) (w : World) :
  strip name <> EmptyString ->
  truthy_filename upload = Some fname ->
  in_set (suffix_lower fname) allowed_extensions = true ->
  let temp_filename :=
    "chef_temp_" +++ uuid4_hex8 (uuid_draws w) +++ suffix_lower fname in
  let chef := {| Chef.id := next_id (map Chef.id (chefs (db w)));
                 Chef.name := strip name;
                 Chef.image_path :=
                   Some ("/static/images/chefs/" +++ temp_filename) |} in
  create_chef_submit name (Some upload) w
  = (RedirectResponse ("/chef/" +++ str_of_int (Chef.id chef)) 303,
     {| db := set_chefs (db w) (chefs (db w) ++ [chef]);
        files :=
          dict_set
            (collapse_slashes ("src/static/images/chefs/" +++ temp_filename))
            (content upload) (files w);
        tasks :=
          tasks w
          ++ match content upload with
             | [] => []
             | _ :: _ =>
                 [process_chef_image_task (Chef.id chef) (content upload)
                    (filename upload)]
             end;
        uuid_draws := S (uuid_draws w);
        events := events w |}).
Proof.
  intros Hname Hfname Hext temp_filename chef.
  assert (Htest : (String.length name =? 0)%nat
                  || (String.length (strip name) =? 0)%nat = false).
  { destruct (_ || _) eqn:E; [|reflexivity].
    apply name_required_test in E. contradiction. }
  unfold create_chef_submit, handle. rewrite Htest, Hfname, Hext.
  cbn [negb].
  unfold Eff.bind at 1, uuid_hex8.
  unfold Eff.bind at 1, write_file, Eff.modify.
  unfold create_chef_finish, db_call.
  unfold Eff.bind at 1. cbn [db].
  rewrite create_chef_run. cbv zeta. fold temp_filename. fold chef.
  destruct (content upload) as [|b bs];
    unfold Eff.bind, add_task, Eff.modify, Eff.ret;
    cbn [fst snd db files tasks uuid_draws events];
    rewrite ?app_nil_r; reflexivity.
Qed.

(** X15: [POST /create-chef] with a name and an upload whose file name
    has an allowed extension.  The handler writes the upload under
    [src/static/images/chefs/chef_temp_<hex><ext>], stores one chef with
    the stripped name and the web path of that file, and redirects to
    the page of the chef; it schedules the portrait task exactly when
    the upload is not empty. *)
Theorem create_chef_submit_keeps_upload (name : string)
  (upload : UploadFile) (fname : string) (w : World) :
  strip name <> EmptyString ->
  truthy_filename upload = Some fname ->
  in_set (suffix_lower fname) allowed_extensions = true ->
  let temp_filename :=
    "chef_temp_" +++ uuid4_hex8 (uuid_draws w) +++ suffix_lower fname in
  let out := create_chef_submit name (Some upload) w in
  exists chef,
    fst out = RedirectResponse ("/chef/" +++ str_of_int (Chef.id chef)) 303
    /\ db (snd out) = set_chefs (db w) (chefs (db w) ++ [chef])
    /\ Chef.name chef = strip name
    /\ Chef.image_path chef
       = Some ("/static/images/chefs/" +++ temp_filename)
    /\ fs_of (snd out) ("src/static/images/chefs/" +++ temp_filename)
       = Some (content upload)
    /\ uuid_draws (snd out) = S (uuid_draws w)
    /\ tasks (snd out)
       = tasks w
         ++ match content upload with
            | [] => []
            | _ :: _ =>
                [process_chef_image_task (Chef.id chef) (content upload)
                   (filename upload)]
            end.
Proof.
  intros Hname Hfname Hext temp_filename out. subst out.
  rewrite (create_chef_submit_run name upload fname w Hname Hfname Hext).
  cbv zeta. fold temp_filename.
  eexists {| Chef.id := _; Chef.name := _; Chef.image_path := _ |}.
  unfold fs_of. cbn [fst snd db files tasks uuid_draws Chef.id Chef.name
                     Chef.image_path].
  rewrite dict_get_set_eq. repeat split; reflexivity.
Qed.

End Background.

Lemma unreadable_images_store_zero_scores_witness :
  let w' := @process_pizza_review_background Stub.externals 1
              ["/static/images/pizzas/gone.jpg"] "Mario" Stub.submitted in
  events w' = events Stub.submitted
  /\ pizza_review (db w')
     = [{| PizzaReview.id := 1; PizzaReview.pizza_id := 1;
           PizzaReview.review_summary := "No images supplied for review." |}]
  /\ exists new_rows,
       pizza_review_scores (db w')
       = pizza_review_scores (db Stub.submitted) ++ new_rows
       /\ map (fun r => (PizzaReviewScore.pizza_review_id r,
                         PizzaReviewScore.category_id r,
                         PizzaReviewScore.score r)) new_rows
          = [(1, 1, 0); (1, 2, 0); (1, 3, 0); (1, 4, 0); (1, 5, 0);
             (1, 6, 0)].
Proof.
  intros w'.
  apply (@unreadable_images_store_zero_scores Stub.externals 1
           ["/static/images/pizzas/gone.jpg"] "Mario" Stub.submitted
           "<src/prompts/pizza_review_system_prompt.txt>"
           "<src/prompts/pizza_review_system_prompt.txt>Mario").
  - reflexivity.
  - reflexivity.
  - intros p [<-|[]]. reflexivity.
  - reflexivity.
  - reflexivity.
  - repeat constructor; simpl; intuition discriminate.
Defined.

Lemma submit_pizza_handler_accepts_witness :
  let out := @submit_pizza_handler Stub.externals 1
               [Stub.margherita; Stub.margherita] Stub.submitted in
  exists new_images,
    fst out = RedirectResponse "/pizza/2" 303
    /\ pizzas (db (snd out))
       = pizzas (db Stub.submitted)
         ++ [{| Pizza.id := 2; Pizza.chef_id := 1 |}]
    /\ pizza_images (db (snd out))
       = pizza_images (db Stub.submitted) ++ new_images
    /\ length new_images = 2%nat
    /\ tasks (snd out)
       = tasks Stub.submitted
         ++ [process_pizza_review_task 2
               (map PizzaImage.image_path new_images) "Mario"].
Proof.
  intros out.
  destruct (@submit_pizza_handler_accepts Stub.externals 1
              {| Chef.id := 1; Chef.name := "Mario";
                 Chef.image_path := None |}
              [Stub.margherita; Stub.margherita] Stub.submitted)
    as (new_images & Hr & Hpizzas & Himages & _ & Hlen & Htasks & _).
  - reflexivity.
  - simpl. lia.
  - reflexivity.
  - reflexivity.
  - exists new_images. repeat split; assumption.
Defined.

Lemma create_chef_submit_keeps_upload_witness :
  let out := @create_chef_submit Stub.externals " Mario "
               (Some Stub.margherita) Stub.world in
  exists chef,
    fst out = RedirectResponse ("/chef/" +++ str_of_int (Chef.id chef)) 303
    /\ db (snd out)
       = set_chefs (db Stub.world) (chefs (db Stub.world) ++ [chef])
    /\ Chef.name chef = "Mario"
    /\ Chef.image_path chef
       = Some "/static/images/chefs/chef_temp_0a1b2c3d.jpg"
    /\ fs_of (snd out) "src/static/images/chefs/chef_temp_0a1b2c3d.jpg"
       = Some [Byte.x41]
    /\ tasks (snd out)
       = [process_chef_image_task (Chef.id chef) [Byte.x41]
            (Some "margherita.jpg")].
Proof.
  intros out.
  destruct (@create_chef_submit_keeps_upload Stub.externals " Mario "
              Stub.margherita "margherita.jpg" Stub.world)
    as (chef & Hr & Hdb & Hname & Hpath & Hfile & _ & Htasks).
  - discriminate.
  - reflexivity.
  - reflexivity.
  - exists chef. repeat split; assumption.
Defined.
